(** * Proxy pool manager of DynamicScout AI: a shallow embedding

    Sources embedded here:
    - [src/scraper/proxy/proxy-manager.py]  (class [ProxyManager])
    - [src/providers/luminati.py]           (class [LuminatiProvider])

    Python dictionaries that describe a proxy are mutable objects shared
    between [self.proxies], [self.active_proxies] and
    [self.blacklisted_proxies].  The embedding keeps that sharing: the
    objects live in a store ([heap]) and the three lists hold references
    into it.  Every call of [datetime.now()] reads an environment clock,
    every use of [random] reads a value supplied with the call.  Calls
    into the manager are taken one at a time, each running to its end
    before the next begins. *)

From stdpp Require Import gmap strings list fin_maps pretty.
From Stdlib Require Import ZArith QArith.

Local Open Scope Z_scope.

(** ** Data model *)

(** An instant as read from [datetime.now()]; the ISO-8601 text written
    to dictionaries and to the cache file stands for the same instant. *)
Abbreviation timestamp := Z (only parsing).

(** Identity of a descriptor dictionary. *)
Abbreviation ref := nat (only parsing).

(** A proxy descriptor.  ['host'] and ['port'] are read with [p['host']]
    and are always there; every other key is read with [.get] or written
    later, so it is optional ([None] is "key absent"). *)
Record Descriptor := mkDescriptor {
  host : string;
  port : Z;
  username : option string;
  password : option string;
  protocol : option string;
  country : option string;
  provider : option string;
  zone : option string;
  is_active : option bool;
  failure_count : option Z;
  avg_response_time : option Z;
  last_checked : option timestamp;
  last_used : option timestamp;
  added_at : option timestamp
}.

Definition set_is_active (v : bool) (d : Descriptor) : Descriptor :=
  mkDescriptor (host d) (port d) (username d) (password d) (protocol d)
    (country d) (provider d) (zone d) (Some v) (failure_count d)
    (avg_response_time d) (last_checked d) (last_used d) (added_at d).

Definition set_failure_count (v : Z) (d : Descriptor) : Descriptor :=
  mkDescriptor (host d) (port d) (username d) (password d) (protocol d)
    (country d) (provider d) (zone d) (is_active d) (Some v)
    (avg_response_time d) (last_checked d) (last_used d) (added_at d).

Definition set_avg_response_time (v : Z) (d : Descriptor) : Descriptor :=
  mkDescriptor (host d) (port d) (username d) (password d) (protocol d)
    (country d) (provider d) (zone d) (is_active d) (failure_count d)
    (Some v) (last_checked d) (last_used d) (added_at d).

Definition set_last_checked (v : timestamp) (d : Descriptor) : Descriptor :=
  mkDescriptor (host d) (port d) (username d) (password d) (protocol d)
    (country d) (provider d) (zone d) (is_active d) (failure_count d)
    (avg_response_time d) (Some v) (last_used d) (added_at d).

Definition set_last_used (v : timestamp) (d : Descriptor) : Descriptor :=
  mkDescriptor (host d) (port d) (username d) (password d) (protocol d)
    (country d) (provider d) (zone d) (is_active d) (failure_count d)
    (avg_response_time d) (last_checked d) (Some v) (added_at d).

Definition set_added_at (v : timestamp) (d : Descriptor) : Descriptor :=
  mkDescriptor (host d) (port d) (username d) (password d) (protocol d)
    (country d) (provider d) (zone d) (is_active d) (failure_count d)
    (avg_response_time d) (last_checked d) (last_used d) (Some v).

(** [f"{proxy['host']}:{proxy['port']}"] *)
Definition proxy_id (d : Descriptor) : string :=
  host d +:+ ":" +:+ pretty (port d).

(** [p['host'] == proxy['host'] and p['port'] == proxy['port']] *)
Definition same_endpoint (p proxy : Descriptor) : bool :=
  bool_decide (host p = host proxy) && bool_decide (port p = port proxy).

(** A performance record, one per proxy id. *)
Module Perf.
Record t := mk {
  total_requests : Z;
  successful_requests : Z;
  total_response_time : Z;
  avg_response_time : Z;
  last_success : option timestamp
}.

(** The record created when a proxy id is seen for the first time. *)
Definition fresh : t := mk 0 0 0 0 None.
End Perf.

(** The object written to [proxy_cache.json]. *)
Record Snapshot := mkSnapshot {
  snap_proxies : list Descriptor;
  snap_performance : gmap string Perf.t;
  snap_blacklisted : list Descriptor;
  snap_last_refresh : option timestamp
}.

(** The manager together with the two parts of its environment that the
    code reads and writes: the clock behind [datetime.now()] ([clock n]
    is the value of the [n]-th reading, [ticks] counts the readings so
    far) and the cache file ([None]: no file, or a file that is not
    JSON). *)
Record State := mkState {
  use_proxies : bool;
  clock : nat -> timestamp;
  ticks : nat;
  cache_file : option Snapshot;
  heap : list Descriptor;
  proxies : list ref;
  active_proxies : list ref;
  blacklisted_proxies : list ref;
  proxy_performance : gmap string Perf.t;
  last_refresh : option timestamp
}.

Definition set_ticks (v : nat) (w : State) : State :=
  mkState (use_proxies w) (clock w) v (cache_file w) (heap w) (proxies w)
    (active_proxies w) (blacklisted_proxies w) (proxy_performance w)
    (last_refresh w).

Definition set_cache_file (v : option Snapshot) (w : State) : State :=
  mkState (use_proxies w) (clock w) (ticks w) v (heap w) (proxies w)
    (active_proxies w) (blacklisted_proxies w) (proxy_performance w)
    (last_refresh w).

Definition set_heap (v : list Descriptor) (w : State) : State :=
  mkState (use_proxies w) (clock w) (ticks w) (cache_file w) v (proxies w)
    (active_proxies w) (blacklisted_proxies w) (proxy_performance w)
    (last_refresh w).

Definition set_proxies (v : list ref) (w : State) : State :=
  mkState (use_proxies w) (clock w) (ticks w) (cache_file w) (heap w) v
    (active_proxies w) (blacklisted_proxies w) (proxy_performance w)
    (last_refresh w).

Definition set_active_proxies (v : list ref) (w : State) : State :=
  mkState (use_proxies w) (clock w) (ticks w) (cache_file w) (heap w)
    (proxies w) v (blacklisted_proxies w) (proxy_performance w)
    (last_refresh w).

Definition set_blacklisted_proxies (v : list ref) (w : State) : State :=
  mkState (use_proxies w) (clock w) (ticks w) (cache_file w) (heap w)
    (proxies w) (active_proxies w) v (proxy_performance w) (last_refresh w).

Definition set_proxy_performance (v : gmap string Perf.t) (w : State) : State :=
  mkState (use_proxies w) (clock w) (ticks w) (cache_file w) (heap w)
    (proxies w) (active_proxies w) (blacklisted_proxies w) v (last_refresh w).

Definition set_last_refresh (v : option timestamp) (w : State) : State :=
  mkState (use_proxies w) (clock w) (ticks w) (cache_file w) (heap w)
    (proxies w) (active_proxies w) (blacklisted_proxies w)
    (proxy_performance w) v.

(** Exceptions the modelled code can raise. *)
Inductive Exn := ZeroDivisionError | IndexError.

Inductive Outcome (A : Type) :=
  | Ok (a : A)
  | Raise (e : Exn).
Arguments Ok {A} a.
Arguments Raise {A} e.

Definition bind {A B} (m : Outcome A) (k : A -> Outcome B) : Outcome B :=
  match m with
  | Ok a => k a
  | Raise e => Raise e
  end.

(** ** Primitive steps *)

(** [datetime.now()] *)
Definition datetime_now (w : State) : timestamp * State :=
  (clock w (ticks w), set_ticks (S (ticks w)) w).

(** The dictionaries a list of references points to, in order. *)
Definition objects (h : list Descriptor) (rs : list ref) : list Descriptor :=
  omap (fun r => h !! r) rs.

(** [p.get('is_active', True)] *)
Definition get_is_active (d : Descriptor) : bool := default true (is_active d).

(** [[p for p in self.proxies if p.get('is_active', True)]] *)
Definition active_view (h : list Descriptor) (ps : list ref) : list ref :=
  List.filter
    (fun r => match h !! r with Some d => get_is_active d | None => false end)
    ps.

Definition refresh_active (w : State) : State :=
  set_active_proxies (active_view (heap w) (proxies w)) w.

(** In-place update of the dictionary behind [r]. *)
Definition mutate (r : ref) (f : Descriptor -> Descriptor) (w : State) : State :=
  set_heap (alter f r (heap w)) w.

(** [self.blacklisted_proxies.append(p)] *)
Definition blacklist_append (r : ref) (w : State) : State :=
  set_blacklisted_proxies (blacklisted_proxies w ++ [r]) w.

(** ** Persistence *)

(** [ProxyManager._save_proxies] *)
Definition _save_proxies (w : State) : State :=
  let '(now, w1) := datetime_now w in
  set_cache_file
    (Some (mkSnapshot (objects (heap w1) (proxies w1))
                      (proxy_performance w1)
                      (objects (heap w1) (blacklisted_proxies w1))
                      (Some now)))
    w1.

(** The fields set by [ProxyManager.__init__] before the cache is read. *)
Definition blank (use : bool) (clk : nat -> timestamp) (tk : nat)
    (file : option Snapshot) : State :=
  mkState use clk tk file [] [] [] [] ∅ None.

(** [ProxyManager._load_saved_proxies]: [json.load] builds new
    dictionaries, first those of ['proxies'], then those of
    ['blacklisted']. *)
Definition _load_saved_proxies (w : State) : State :=
  match cache_file w with
  | None => w
  | Some data =>
      let h := snap_proxies data ++ snap_blacklisted data in
      let ps := seq 0 (length (snap_proxies data)) in
      let bl := seq (length (snap_proxies data)) (length (snap_blacklisted data)) in
      mkState (use_proxies w) (clock w) (ticks w) (cache_file w)
        h ps (active_view h ps) bl (snap_performance data)
        (match snap_last_refresh data with
         | Some t => Some t
         | None => last_refresh w
         end)
  end.

(** [ProxyManager.__init__] *)
Definition __init__ (use : bool) (clk : nat -> timestamp) (tk : nat)
    (file : option Snapshot) : State :=
  _load_saved_proxies (blank use clk tk file).

(** A process restart: the file and the clock stay, the manager is built
    again. *)
Definition restart (w : State) : State :=
  __init__ (use_proxies w) (clock w) (ticks w) (cache_file w).

(** ** Refresh *)

(** What [self.provider.get_proxies()] gave: a list of new dictionaries,
    or an exception (caught and logged by [refresh_proxies]). *)
Inductive Fetch :=
  | Fetched (new_proxies : list Descriptor)
  | FetchRaised.

(** The merge loop of [refresh_proxies]: a fetched dictionary whose id is
    not known yet becomes an object of the pool. *)
Fixpoint merge_new (new_proxies : list Descriptor)
    (existing_proxy_ids : gset string) (w : State) : State :=
  match new_proxies with
  | [] => w
  | proxy :: rest =>
      if decide (proxy_id proxy ∈ existing_proxy_ids) then
        merge_new rest existing_proxy_ids w
      else
        let '(now, w1) := datetime_now w in
        let p := set_added_at now (set_is_active true proxy) in
        let r := length (heap w1) in
        merge_new rest ({[proxy_id proxy]} ∪ existing_proxy_ids)
          (set_proxies (proxies w1 ++ [r]) (set_heap (heap w1 ++ [p]) w1))
  end.

(** [ProxyManager.refresh_proxies] *)
Definition refresh_proxies (w : State) (fetched : Fetch) : State :=
  if negb (use_proxies w) then w
  else
    match fetched with
    | FetchRaised => w
    | Fetched [] => w
    | Fetched new_proxies =>
        let existing_proxy_ids : gset string :=
          list_to_set (proxy_id <$> objects (heap w) (proxies w)) in
        let w1 := merge_new new_proxies existing_proxy_ids w in
        let w2 := refresh_active w1 in
        let '(now, w3) := datetime_now w2 in
        _save_proxies (set_last_refresh (Some now) w3)
    end.

(** ** Health check *)

(** What the validator observed for one proxy: reachable after
    [elapsed_ms] milliseconds, not reachable, or the probe raised. *)
Inductive Probe :=
  | ProbeTrue (elapsed_ms : Z)
  | ProbeFalse
  | ProbeRaised.

(** One entry of the list [asyncio.gather(..., return_exceptions=True)]
    returns. *)
Inductive CheckResult := ResTrue | ResFalse | ResException.

(** [ProxyManager._check_single_proxy].  A division by zero in the
    average leaves the counters already incremented and reaches the
    caller as an exception object in the result list. *)
Definition _check_single_proxy (w : State) (r : ref) (probe : Probe)
    : CheckResult * State :=
  match probe with
  | ProbeRaised => (ResException, w)
  | ProbeFalse => (ResFalse, w)
  | ProbeTrue response_time =>
      match heap w !! r with
      | None => (ResException, w)
      | Some proxy =>
          let pid := proxy_id proxy in
          let perf := default Perf.fresh (proxy_performance w !! pid) in
          let total := Perf.total_requests perf + 1 in
          let succ := Perf.successful_requests perf + 1 in
          let trt := Perf.total_response_time perf + response_time in
          if succ =? 0 then
            (ResException,
             set_proxy_performance
               (<[pid := Perf.mk total succ trt (Perf.avg_response_time perf)
                           (Perf.last_success perf)]> (proxy_performance w)) w)
          else
            let avg := trt / succ in
            let '(now1, w1) := datetime_now w in
            let w2 :=
              set_proxy_performance
                (<[pid := Perf.mk total succ trt avg (Some now1)]>
                   (proxy_performance w1)) w1 in
            let '(now2, w3) := datetime_now w2 in
            (ResTrue,
             mutate r (set_avg_response_time avg)
               (mutate r (set_last_checked now2) w3))
      end
  end.

(** The probes of one health check, taken in the order of
    [self.active_proxies]; [probes i] is what the validator saw for the
    [i]-th of them. *)
Fixpoint run_checks (rs : list ref) (i : nat) (probes : nat -> Probe)
    (w : State) : list CheckResult * State :=
  match rs with
  | [] => ([], w)
  | r :: rest =>
      let '(res, w1) := _check_single_proxy w r (probes i) in
      let '(results, w2) := run_checks rest (S i) probes w1 in
      (res :: results, w2)
  end.

(** The body of the loop over [zip(self.active_proxies, results)]. *)
Definition process_result (r : ref) (result : CheckResult) (w : State) : State :=
  match result with
  | ResException => w
  | ResFalse =>
      match heap w !! r with
      | None => w
      | Some proxy =>
          let n := default 0 (failure_count proxy) + 1 in
          let w1 := mutate r (set_failure_count n) w in
          if 3 <=? n then
            blacklist_append r (mutate r (set_is_active false) w1)
          else w1
      end
  | ResTrue => mutate r (set_failure_count 0) w
  end.

Fixpoint process_results (l : list (ref * CheckResult)) (w : State) : State :=
  match l with
  | [] => w
  | (r, result) :: rest => process_results rest (process_result r result w)
  end.

(** [ProxyManager._check_proxy_health] *)
Definition _check_proxy_health (w : State) (probes : nat -> Probe) : State :=
  let '(results, w1) := run_checks (active_proxies w) 0 probes w in
  let w2 := process_results (zip (active_proxies w1) results) w1 in
  _save_proxies (refresh_active w2).

(** One round of [ProxyManager._health_check_loop]; the thread exists
    only when proxies are enabled. *)
Definition health_tick (w : State) (probes : nat -> Probe) : State :=
  if use_proxies w then
    match active_proxies w with
    | [] => w
    | _ :: _ => _check_proxy_health w probes
    end
  else w.

(** ** Selection *)

(** Truth value of an optional string argument ([if country:]). *)
Definition truthy_str (o : option string) : bool :=
  match o with
  | Some s => negb (String.eqb s "")
  | None => false
  end.

(** Truth value of an optional integer argument
    ([if max_response_time ...], [if response_time:]). *)
Definition truthy_int (o : option Z) : bool :=
  match o with
  | Some n => negb (n =? 0)
  | None => false
  end.

(** The two values [random] supplies to one call of [get_proxy]: the
    index drawn by [random.choice] and the number returned by
    [random.uniform(0, total_weight)]. *)
Record Draw := mkDraw {
  choice_index : nat;
  uniform : Q
}.

(** [random.choice(seq)] *)
Definition random_choice {A} (l : list A) (i : nat) : Outcome A :=
  match l !! (i mod length l)%nat with
  | Some x => Ok x
  | None => Raise IndexError
  end.

(** [p.get('country') == country] *)
Definition country_matches (h : list Descriptor) (c : option string) (r : ref) : bool :=
  match h !! r with
  | Some p => bool_decide (country p = c)
  | None => false
  end.

(** [p.get('avg_response_time', 999999) <= max_response_time] *)
Definition within_response_time (h : list Descriptor) (m : Z) (r : ref) : bool :=
  match h !! r with
  | Some p => default 999999 (avg_response_time p) <=? m
  | None => false
  end.

(** The list [filtered_proxies] after the two optional filters. *)
Definition filtered_proxies (w : State) (country : option string)
    (max_response_time : option Z) : list ref :=
  let l := active_proxies w in
  let l := if truthy_str country
           then List.filter (country_matches (heap w) country) l else l in
  if truthy_int max_response_time && negb (bool_decide (l = []))
  then List.filter
         (within_response_time (heap w) (default 0 max_response_time)) l
  else l.

(** [1000 // rt if rt > 0 else 1000] *)
Definition weight (rt : Z) : Z := if 0 <? rt then 1000 / rt else 1000.

(** [(p, p.get('avg_response_time', 500))] *)
Definition with_time (h : list Descriptor) (r : ref) : ref * Z :=
  (r, default 500 (from_option avg_response_time None (h !! r))).

Definition total_weight (l : list (ref * Z)) : Z :=
  foldr (fun x acc => weight x.2 + acc) 0 l.

(** The [for p, rt in proxies_with_time] loop: the first entry at which
    the running sum reaches [r]; [None] when the loop ends without
    [break]. *)
Fixpoint weighted_walk (l : list (ref * Z)) (r : Q) (current_weight : Z)
    : option ref :=
  match l with
  | [] => None
  | (p, rt) :: rest =>
      let current_weight := current_weight + weight rt in
      if Qle_bool r (inject_Z current_weight) then Some p
      else weighted_walk rest r current_weight
  end.

(** The branch [len(filtered_proxies) > 3]. *)
Definition weighted_choice (h : list Descriptor) (l : list ref) (draw : Draw)
    : Outcome ref :=
  let proxies_with_time := with_time h <$> l in
  if total_weight proxies_with_time <=? 0 then
    random_choice l (choice_index draw)
  else
    match weighted_walk proxies_with_time (uniform draw) 0 with
    | Some p => Ok p
    | None =>
        match last proxies_with_time with
        | Some x => Ok x.1
        | None => Raise IndexError
        end
    end.

(** [ProxyManager.get_proxy] *)
Definition get_proxy (w : State) (country : option string)
    (max_response_time : option Z) (draw : Draw)
    : Outcome (option ref * State) :=
  if negb (use_proxies w) || bool_decide (active_proxies w = []) then
    Ok (None, w)
  else
    let l := filtered_proxies w country max_response_time in
    match l with
    | [] => Ok (None, w)
    | _ :: _ =>
        bind (if (length l <=? 3)%nat
              then random_choice l (choice_index draw)
              else weighted_choice (heap w) l draw)
          (fun proxy =>
             let '(now, w1) := datetime_now w in
             Ok (Some proxy, mutate proxy (set_last_used now) w1))
    end.

(** ** Reports *)

(** [for p in self.proxies: if p['host'] == ... and p['port'] == ...]:
    the first object of the pool with the endpoint of [proxy]. *)
Fixpoint find_endpoint (h : list Descriptor) (ps : list ref)
    (proxy : Descriptor) : option ref :=
  match ps with
  | [] => None
  | r :: rest =>
      match h !! r with
      | Some p =>
          if same_endpoint p proxy then Some r else find_endpoint h rest proxy
      | None => find_endpoint h rest proxy
      end
  end.

(** [a // b] *)
Definition floordiv (a b : Z) : Outcome Z :=
  if b =? 0 then Raise ZeroDivisionError else Ok (a / b).

(** The failure branch of [report_proxy_result]. *)
Definition report_failure (w : State) (proxy : Descriptor) : State :=
  match find_endpoint (heap w) (proxies w) proxy with
  | None => w
  | Some r =>
      match heap w !! r with
      | None => w
      | Some p =>
          let n := default 0 (failure_count p) + 1 in
          let w1 := mutate r (set_failure_count n) w in
          if 3 <=? n then
            refresh_active
              (blacklist_append r (mutate r (set_is_active false) w1))
          else w1
      end
  end.

(** The success branch of [report_proxy_result], after the performance
    record is updated. *)
Definition report_success (w : State) (proxy : Descriptor) : State :=
  match find_endpoint (heap w) (proxies w) proxy with
  | None => w
  | Some r => mutate r (set_failure_count 0) w
  end.

(** [ProxyManager.report_proxy_result].  [proxy = None] stands for a
    descriptor that is [None] or empty; [save] says whether
    [random.random() < 0.1] held. *)
Definition report_proxy_result (w : State) (proxy : option Descriptor)
    (success : bool) (response_time : option Z) (save : bool)
    : Outcome State :=
  match proxy with
  | None => Ok w
  | Some proxy =>
      let pid := proxy_id proxy in
      let perf := default Perf.fresh (proxy_performance w !! pid) in
      let total := Perf.total_requests perf + 1 in
      bind
        (if success then
           let succ := Perf.successful_requests perf + 1 in
           let '(now, w1) := datetime_now w in
           bind
             (if truthy_int response_time then
                let trt := Perf.total_response_time perf
                           + default 0 response_time in
                bind (floordiv trt succ)
                  (fun avg => Ok (Perf.mk total succ trt avg (Some now)))
              else
                Ok (Perf.mk total succ (Perf.total_response_time perf)
                      (Perf.avg_response_time perf) (Some now)))
             (fun perf' =>
                Ok (report_success
                      (set_proxy_performance
                         (<[pid := perf']> (proxy_performance w1)) w1)
                      proxy))
         else
           Ok (report_failure
                 (set_proxy_performance
                    (<[pid := Perf.mk total (Perf.successful_requests perf)
                                (Perf.total_response_time perf)
                                (Perf.avg_response_time perf)
                                (Perf.last_success perf)]>
                       (proxy_performance w)) w)
                 proxy))
        (fun w2 => Ok (if save then _save_proxies w2 else w2))
  end.

(** ** Histories *)

(** One call into the manager, with everything the environment supplies
    to it. *)
Inductive Event :=
  | EvRefresh (fetched : Fetch)
  | EvHealth (probes : nat -> Probe)
  | EvSelect (country : option string) (max_response_time : option Z)
      (draw : Draw)
  | EvReport (proxy : option Descriptor) (success : bool)
      (response_time : option Z) (save : bool).

Definition step (w : State) (ev : Event) : Outcome State :=
  match ev with
  | EvRefresh fetched => Ok (refresh_proxies w fetched)
  | EvHealth probes => Ok (health_tick w probes)
  | EvSelect c m draw => bind (get_proxy w c m draw) (fun x => Ok x.2)
  | EvReport proxy success rt save =>
      report_proxy_result w proxy success rt save
  end.

Fixpoint run (w : State) (evs : list Event) : Outcome State :=
  match evs with
  | [] => Ok w
  | ev :: rest => bind (step w ev) (fun w1 => run w1 rest)
  end.

(** The manager of a process that found no cache file. *)
Definition initial (use : bool) (clk : nat -> timestamp) : State :=
  __init__ use clk 0%nat None.

(** ** The Luminati provider *)

Module LuminatiProvider.
(** The three configuration values read by [__init__]. *)
Record t := mk {
  username : option string;
  password : option string;
  zone : option string
}.

(** How an f-string renders an optional configuration value. *)
Definition fmt (o : option string) : string := default "None" o.

Definition superproxy_host : string := "zproxy.lum-superproxy.io".
Definition superproxy_port : Z := 22225.

Definition countries : list string :=
  ["us"; "gb"; "ca"; "de"; "fr"; "au"; "jp"; "it"; "nl";
   "br"; "es"; "in"; "mx"; "sg"; "kr"; "ch"; "se"; "no"].

Definition country_proxy (self : t) (country : string) : Descriptor :=
  mkDescriptor superproxy_host superproxy_port
    (Some (fmt (username self) +:+ "-zone-" +:+ fmt (zone self)
           +:+ "-country-" +:+ country))
    (password self) (Some "http") (Some country) (Some "luminati") None
    (Some true) None None None None None.

Definition rotating_proxy (self : t) : Descriptor :=
  mkDescriptor superproxy_host superproxy_port
    (Some (fmt (username self) +:+ "-zone-" +:+ fmt (zone self)))
    (password self) (Some "http") (Some "any") (Some "luminati") None
    (Some true) None None None None None.

(** [LuminatiProvider._generate_zone_proxies] *)
Definition _generate_zone_proxies (self : t) : list Descriptor :=
  (country_proxy self <$> countries)
  ++ ((fun _ => rotating_proxy self) <$> seq 0 5).

(** [LuminatiProvider.get_proxies].  [from_api] is what
    [_fetch_proxies_from_api] returns when no zone is configured; it
    depends on the remote service. *)
Definition get_proxies (self : t) (from_api : list Descriptor)
    : list Descriptor :=
  if negb (truthy_str (username self)) || negb (truthy_str (password self))
  then []
  else if truthy_str (zone self) then _generate_zone_proxies self
  else from_api.
End LuminatiProvider.

(** ** Sample runs *)

Definition sample_clock : nat -> timestamp := fun n => 1000 + Z.of_nat n.

Definition endpoint (h : string) (p : Z) (c : string) : Descriptor :=
  mkDescriptor h p None None (Some "http") (Some c) None None
    (Some true) None None None None None.

Definition luminati_u_p_z1 : LuminatiProvider.t :=
  LuminatiProvider.mk (Some "u") (Some "p") (Some "z1").

(** ** Invariants and conditions on histories *)

(** The active view is the filter of the pool. *)
Definition view_ok (w : State) : Prop :=
  active_proxies w = active_view (heap w) (proxies w).

(** Every object of the store is in the pool, in order of arrival, and
    the blacklist holds objects of the pool. *)
Definition alloc_ok (w : State) : Prop :=
  proxies w = seq 0 (length (heap w))
  /\ forall r, r ∈ blacklisted_proxies w -> r ∈ proxies w.

(** No two objects have the same proxy id. *)
Definition keys_ok (w : State) : Prop := NoDup (proxy_id <$> heap w).

(** Every object carries the key ['is_active']. *)
Definition flags_ok (w : State) : Prop :=
  forall r d, heap w !! r = Some d -> is_Some (is_active d).

(** [failure_count >= 3] *)
Definition three_strikes (d : Descriptor) : Prop :=
  exists n, failure_count d = Some n /\ 3 <= n.

Definition strike_ok (w : State) : Prop :=
  forall r d, heap w !! r = Some d -> three_strikes d ->
    is_active d = Some false /\ r ∈ blacklisted_proxies w.

Definition counts_ok (p : Perf.t) : Prop :=
  0 <= Perf.successful_requests p <= Perf.total_requests p
  /\ (Perf.successful_requests p = 0 -> Perf.avg_response_time p = 0).

Definition average_ok (p : Perf.t) : Prop :=
  Perf.avg_response_time p =
    if 0 <? Perf.successful_requests p
    then Perf.total_response_time p / Perf.successful_requests p
    else 0.

Definition perf_ok (P : Perf.t -> Prop) (w : State) : Prop :=
  forall k p, proxy_performance w !! k = Some p -> P p.

(** A provider hands out descriptors that have not failed three times. *)
Definition fresh_descriptor (d : Descriptor) : Prop :=
  forall n, failure_count d = Some n -> n < 3.

Definition fresh_fetch (ev : Event) : Prop :=
  match ev with
  | EvRefresh (Fetched l) => Forall fresh_descriptor l
  | _ => True
  end.

(** A report of success that comes with a response time other than 0. *)
Definition timed_success (ev : Event) : Prop :=
  match ev with
  | EvReport (Some _) true rt _ => truthy_int rt = true
  | _ => True
  end.

Definition pool_ok (w : State) : Prop := alloc_ok w /\ keys_ok w /\ flags_ok w.

(** What both failure paths do to the object they found. *)
Definition strike (r : ref) (p : Descriptor) (w : State) : State :=
  let n := default 0 (failure_count p) + 1 in
  let w1 := mutate r (set_failure_count n) w in
  if 3 <=? n then blacklist_append r (mutate r (set_is_active false) w1)
  else w1.

Definition timed_ok (p : Perf.t) : Prop := counts_ok p /\ average_ok p.

(** ** Statements under study *)

(** The three-strike rule read as an equivalence. *)
Definition three_strike_rule (w : State) : Prop :=
  forall r d, r ∈ proxies w -> heap w !! r = Some d ->
    (three_strikes d <->
     is_active d = Some false /\ r ∈ blacklisted_proxies w).

(** The three-strike rule from left to right only. *)
Definition three_strikes_blacklisted (w : State) : Prop :=
  forall r, r ∈ proxies w ->
    exists d, heap w !! r = Some d
      /\ (three_strikes d ->
          is_active d = Some false /\ r ∈ blacklisted_proxies w).

(** Four endpoints used in the sample histories. *)
Definition proxy_a : Descriptor := endpoint "10.0.0.1" 8080 "us".
Definition proxy_b : Descriptor := endpoint "10.0.0.2" 8080 "gb".
Definition proxy_c : Descriptor := endpoint "10.0.0.3" 3128 "de".
Definition proxy_d : Descriptor := endpoint "10.0.0.4" 3128 "us".

Definition fail (d : Descriptor) : Event := EvReport (Some d) false None false.

(** Three failures of [proxy_a], then one success. *)
Definition strikes_then_success : list Event :=
  [EvRefresh (Fetched [proxy_a; proxy_b]);
   fail proxy_a; fail proxy_a; fail proxy_a;
   EvReport (Some proxy_a) true (Some 200) false].

(** Selector soundness with every filter that is passed enforced, and
    with unmeasured descriptors excluded by any bound. *)
Definition selection_sound_as_stated (w : State) : Prop :=
  forall c m draw r w',
    get_proxy w c m draw = Ok (Some r, w') ->
    exists d, heap w' !! r = Some d
      /\ is_active d = Some true
      /\ (forall s, c = Some s -> country d = Some s)
      /\ (forall b, m = Some b ->
          exists a, avg_response_time d = Some a /\ a <= b).

(** Selector soundness for the filters the code applies: a country that
    is not the empty string, a bound that is not 0. *)
Definition selection_sound (w : State) : Prop :=
  forall c m draw r w',
    get_proxy w c m draw = Ok (Some r, w') ->
    r ∈ proxies w
    /\ exists d, heap w' !! r = Some d
      /\ is_active d = Some true
      /\ (truthy_str c = true -> country d = c)
      /\ (truthy_int m = true ->
          default 999999 (avg_response_time d) <= default 0 m)
      /\ (truthy_int m = true -> default 0 m < 999999 ->
          is_Some (avg_response_time d)).

(** One health check in which [proxy_a] answers after 50 ms and
    [proxy_b] does not answer. *)
Definition one_up_one_down : list Event :=
  [EvRefresh (Fetched [proxy_a; proxy_b]);
   EvHealth (fun i => match i with O => ProbeTrue 50 | _ => ProbeFalse end)].

(** The pool after [refresh()] on an empty pool with the zone
    configuration [u] / [p] / [z1]. *)
Definition zone_refresh (clk : nat -> timestamp) (from_api : list Descriptor)
    : State :=
  refresh_proxies (initial true clk)
    (Fetched (LuminatiProvider.get_proxies luminati_u_p_z1 from_api)).

(** What a descriptor of the zone provider looks like. *)
Definition zone_descriptor (user cc : string) (d : Descriptor) : Prop :=
  host d = "zproxy.lum-superproxy.io" /\ port d = 22225
  /\ username d = Some user /\ country d = Some cc.

(** The weight of a candidate in the words of the specification: an
    unmeasured candidate counts as 1 ms. *)
Definition stated_weight (d : Descriptor) : Z :=
  match avg_response_time d with
  | Some rt => if 0 <? rt then 1000 / rt else 1000
  | None => 1000
  end.

(** The weight of a candidate as the code computes it: an unmeasured
    candidate counts as 500 ms. *)
Definition candidate_weight (d : Descriptor) : Z :=
  match avg_response_time d with
  | Some rt => if 0 <? rt then 1000 / rt else 1000
  | None => 2
  end.

(** The running sum of the weights of the first [n] candidates. *)
Definition running_weight (h : list Descriptor) (l : list ref) (n : nat) : Z :=
  total_weight (with_time h <$> take n l).

(** Four proxies; the first never answered a probe, the others answer
    within 1 ms. *)
Definition one_unmeasured : list Event :=
  [EvRefresh (Fetched [proxy_a; proxy_b; proxy_c; proxy_d]);
   EvHealth (fun i => match i with O => ProbeFalse | _ => ProbeTrue 1 end)].

(** The endpoint of a descriptor, its identity in the pool. *)
Definition endpoint_of (d : Descriptor) : string * Z := (host d, port d).

(** Every endpoint belongs to at most one descriptor of the pool and of
    the blacklist together. *)
Definition endpoints_unique (w : State) : Prop :=
  NoDup (endpoint_of <$> objects (heap w) (proxies w))
  /\ (forall r, r ∈ blacklisted_proxies w -> r ∈ proxies w)
  /\ forall r1 r2 d1 d2,
       r1 ∈ proxies w ++ blacklisted_proxies w ->
       r2 ∈ proxies w ++ blacklisted_proxies w ->
       heap w !! r1 = Some d1 -> heap w !! r2 = Some d2 ->
       endpoint_of d1 = endpoint_of d2 -> r1 = r2 /\ d1 = d2.

(** Uniqueness as the specification has it: no endpoint appears twice
    in the list of pool entries followed by the list of blacklist
    entries. *)
Definition endpoints_unique_as_stated (w : State) : Prop :=
  NoDup (endpoint_of <$>
           objects (heap w) (proxies w ++ blacklisted_proxies w)).

(** A successful report that happens to be saved, before any refresh. *)
Definition saved_report : list Event :=
  [EvReport (Some proxy_a) true (Some 120) true].

(** A refresh, three failures of [proxy_a] and a probe of [proxy_b]. *)
Definition busy_history : list Event :=
  [EvRefresh (Fetched [proxy_a; proxy_b; proxy_a]);
   fail proxy_a; fail proxy_a; fail proxy_a; fail proxy_a;
   EvHealth (fun _ => ProbeTrue 80);
   EvSelect (Some "gb") None (mkDraw 0 0);
   EvRefresh (Fetched [proxy_b; proxy_c])].

(** The invariant of performance records as the specification has it. *)
Definition records_as_stated (w : State) : Prop :=
  perf_ok
    (fun p =>
       Perf.successful_requests p <= Perf.total_requests p
       /\ average_ok p)
    w.

(** A success with a response time, then a success without one. *)
Definition untimed_success : list Event :=
  [EvReport (Some proxy_a) true (Some 100) false;
   EvReport (Some proxy_a) true None false].

(** Reports and probes in which every success comes with its time. *)
Definition timed_history : list Event :=
  [EvRefresh (Fetched [proxy_a; proxy_b]);
   EvReport (Some proxy_a) true (Some 100) false;
   EvReport (Some proxy_a) false None false;
   EvHealth (fun _ => ProbeTrue 35);
   EvReport (Some proxy_a) true (Some 71) true;
   EvReport (Some proxy_c) false (Some 5) false].

(** Neither [get_proxy] nor [report_proxy_result] raises in [w]. *)
Definition never_raises (w : State) : Prop :=
  (forall c m draw, exists res, get_proxy w c m draw = Ok res)
  /\ (forall proxy success rt save,
        exists w', report_proxy_result w proxy success rt save = Ok w').

(** [get_proxy] gives [None] when disabled or without active proxies,
    and a report on no descriptor changes nothing. *)
Definition quiet_when_idle (w : State) : Prop :=
  (forall c m draw,
     use_proxies w = false \/ active_proxies w = [] ->
     get_proxy w c m draw = Ok (None, w))
  /\ (forall success rt save,
        report_proxy_result w None success rt save = Ok w).

(** [p.get('is_active', True)] holds: the key is absent or true. *)
Definition treated_as_active (d : Descriptor) : Prop :=
  is_active d = None \/ is_active d = Some true.

Definition active_view_exact (w : State) : Prop :=
  forall r, r ∈ active_proxies w <->
    r ∈ proxies w /\ exists d, heap w !! r = Some d /\ treated_as_active d.

(** A cache file written before the key ['is_active'] existed. *)
Definition legacy_entry : Descriptor :=
  mkDescriptor "10.0.0.9" 8080 None None None (Some "fr") None None
    None None None None None None.

Definition legacy_snapshot : Snapshot :=
  mkSnapshot [legacy_entry; set_is_active false proxy_b] ∅ [] None.

(** No descriptor of the pool has the endpoint of [proxy]. *)
Definition unknown_endpoint (w : State) (proxy : Descriptor) : Prop :=
  forall r p, r ∈ proxies w -> heap w !! r = Some p ->
    endpoint_of p <> endpoint_of proxy.

Definition report_on (proxy : Descriptor) (ev : Event) : Prop :=
  exists success rt save, ev = EvReport (Some proxy) success rt save.

(** What reports on an unknown endpoint leave as it was. *)
Definition pool_untouched (w w' : State) (proxy : Descriptor) : Prop :=
  heap w' = heap w
  /\ proxies w' = proxies w
  /\ active_proxies w' = active_proxies w
  /\ blacklisted_proxies w' = blacklisted_proxies w
  /\ forall k, k <> proxy_id proxy ->
       proxy_performance w' !! k = proxy_performance w !! k.

(** Five failures of a proxy the pool has never seen. *)
Definition stranger_fails : list Event :=
  [fail proxy_c; fail proxy_c; fail proxy_c; fail proxy_c; fail proxy_c].

(** ** Statements about how states follow one another *)















(** ** Statements about reports *)




Definition three_failures (proxy : Descriptor) : list Event :=
  [EvReport (Some proxy) false None false;
   EvReport (Some proxy) false (Some 900) true;
   EvReport (Some proxy) false None false].

Definition fresh_pool : list Event :=
  [EvRefresh (Fetched [proxy_a; proxy_b; proxy_c])].

(** ** Statements about selection *)





(** ** Statements about refreshes *)





(** ** Statements about health checks *)






(** * Properties *)

Ltac st_simpl :=
  cbn [heap proxies active_proxies blacklisted_proxies proxy_performance
       last_refresh use_proxies clock ticks cache_file set_ticks
       set_cache_file set_heap set_proxies set_active_proxies
       set_blacklisted_proxies set_proxy_performance set_last_refresh
       mutate blacklist_append refresh_active datetime_now _save_proxies
       fst snd] in *.

(** ** Histories *)

(** A property kept by every step that does not raise holds after every
    history that does not raise. *)
Lemma run_invariant (I : State -> Prop) (ok : Event -> Prop) :
  (forall w ev w', I w -> ok ev -> step w ev = Ok w' -> I w') ->
  forall evs w w', I w -> Forall ok evs -> run w evs = Ok w' -> I w'.
Proof.
  intros Hstep. induction evs as [|ev evs IH]; intros w w' HI Hok Hrun.
  - simpl in Hrun. by inversion Hrun; subst.
  - inversion Hok as [|? ? Hev Hevs]; subst. simpl in Hrun.
    destruct (step w ev) as [w1|] eqn:Hs; [|done]. simpl in Hrun.
    apply (IH w1); [by apply (Hstep w ev)|done|done].
Qed.

Lemma Forall_any_event (evs : list Event) : Forall (fun _ => True) evs.
Proof. by apply Forall_forall. Qed.

(** ** The store *)

Lemma objects_ext h h' rs :
  (forall r, r ∈ rs -> h' !! r = h !! r) -> objects h' rs = objects h rs.
Proof.
  unfold objects. induction rs as [|r rs IH]; intros H; [done|].
  cbn [omap list_omap]. rewrite (H r) by left.
  rewrite IH; [done|].
  intros r' Hr'. apply H. by right.
Qed.

Lemma objects_all (h : list Descriptor) : objects h (seq 0 (length h)) = h.
Proof.
  induction h as [|d h IH] using rev_ind; [done|].
  rewrite length_app, Nat.add_1_r, seq_S. unfold objects.
  rewrite omap_app. simpl.
  rewrite lookup_app_r, Nat.sub_diag by lia. simpl. f_equal.
  rewrite <- IH at 2. apply objects_ext.
  intros r Hr%elem_of_seq. by rewrite lookup_app_l by lia.
Qed.

Lemma elem_of_active_view h ps r :
  r ∈ active_view h ps <->
  r ∈ ps /\ exists d, h !! r = Some d /\ get_is_active d = true.
Proof.
  unfold active_view. rewrite !list_elem_of_In, filter_In.
  split.
  - intros [Hin H]. split; [done|].
    destruct (h !! r) as [d|]; [eauto|done].
  - intros [Hin (d & Hd & H)]. split; [done|]. by rewrite Hd.
Qed.

Lemma active_view_ext h h' ps :
  (forall r, r ∈ ps -> get_is_active <$> h' !! r = get_is_active <$> h !! r) ->
  active_view h' ps = active_view h ps.
Proof.
  intros H. apply filter_ext_in. intros r Hr%list_elem_of_In.
  specialize (H r Hr).
  destruct (h' !! r), (h !! r); simpl in H; congruence.
Qed.

Lemma active_view_alter h ps r f :
  (forall d, is_active (f d) = is_active d) ->
  active_view (alter f r h) ps = active_view h ps.
Proof.
  intros Hf. apply active_view_ext. intros r' _.
  destruct (decide (r = r')) as [->|Hne];
    [rewrite list_lookup_alter_eq|by rewrite list_lookup_alter_ne].
  destruct (h !! r') as [d|]; [simpl|done]. unfold get_is_active. by rewrite Hf.
Qed.


Lemma find_endpoint_None h ps proxy :
  (forall r p, r ∈ ps -> h !! r = Some p -> same_endpoint p proxy = false) ->
  find_endpoint h ps proxy = None.
Proof.
  induction ps as [|r0 ps IH]; simpl; intros H; [done|].
  destruct (h !! r0) as [p|] eqn:Hp.
  - rewrite (H r0 p) by (done || left). apply IH.
    intros r q Hr. apply H. by right.
  - apply IH. intros r q Hr. apply H. by right.
Qed.
(** ** Shape of the operations *)

Lemma random_choice_elem {A} (l : list A) (i : nat) :
  l <> [] -> exists x, random_choice l i = Ok x /\ x ∈ l.
Proof.
  intros Hl. unfold random_choice.
  assert (i mod length l < length l)%nat as Hlt.
  { apply Nat.mod_upper_bound. by destruct l. }
  destruct (lookup_lt_is_Some_2 l _ Hlt) as [x Hx]. rewrite Hx.
  exists x. split; [done|]. by eapply list_elem_of_lookup_2.
Qed.

Lemma weighted_walk_elem l r cw p :
  weighted_walk l r cw = Some p -> p ∈ l.*1.
Proof.
  revert cw. induction l as [|[q rt] l IH]; intros cw; simpl; [done|].
  destruct (Qle_bool r (inject_Z (cw + weight rt))).
  - intros [= ->]. left.
  - intros H%IH. by right.
Qed.

Lemma with_time_fst h l : (with_time h <$> l).*1 = l.
Proof. induction l as [|r l IH]; simpl; [done|]. by f_equal. Qed.

Lemma weighted_choice_elem h l draw :
  l <> [] -> exists x, weighted_choice h l draw = Ok x /\ x ∈ l.
Proof.
  intros Hl. unfold weighted_choice.
  destruct (total_weight (with_time h <$> l) <=? 0).
  { by apply random_choice_elem. }
  destruct (weighted_walk _ _ _) as [p|] eqn:Hw.
  - exists p. split; [done|].
    apply weighted_walk_elem in Hw. by rewrite with_time_fst in Hw.
  - rewrite fmap_last. destruct (last l) as [x|] eqn:Hlast.
    + exists x. split; [done|]. by apply last_Some_elem_of.
    + exfalso. apply last_is_Some in Hl. rewrite Hlast in Hl. by destruct Hl.
Qed.

(** [get_proxy] does not raise; what it returns is one of the filtered
    candidates, and the only change is the [last_used] stamp on it. *)
Lemma get_proxy_shape w c m draw :
  get_proxy w c m draw = Ok (None, w)
  \/ exists r,
       r ∈ filtered_proxies w c m
       /\ use_proxies w = true
       /\ get_proxy w c m draw =
            Ok (Some r,
                mutate r (set_last_used (clock w (ticks w)))
                  (set_ticks (S (ticks w)) w)).
Proof.
  unfold get_proxy.
  destruct (use_proxies w) eqn:Huse; simpl; [|by left].
  case_bool_decide; [by left|].
  destruct (filtered_proxies w c m) as [|r0 l] eqn:Hf; [by left|].
  right.
  assert (r0 :: l <> []) as Hne by done.
  destruct (length (r0 :: l) <=? 3)%nat.
  - destruct (random_choice_elem (r0 :: l) (choice_index draw) Hne)
      as (x & -> & Hx). by exists x.
  - destruct (weighted_choice_elem (heap w) (r0 :: l) draw Hne)
      as (x & -> & Hx). by exists x.
Qed.

Lemma elem_of_filtered_proxies w c m r :
  r ∈ filtered_proxies w c m ->
  r ∈ active_proxies w
  /\ (truthy_str c = true -> country_matches (heap w) c r = true)
  /\ (truthy_int m = true ->
      within_response_time (heap w) (default 0 m) r = true).
Proof.
  unfold filtered_proxies.
  set (l := if truthy_str c then _ else _).
  assert (forall x, x ∈ l ->
            x ∈ active_proxies w
            /\ (truthy_str c = true -> country_matches (heap w) c x = true))
    as Hl.
  { intros x. subst l. destruct (truthy_str c).
    - rewrite list_elem_of_In, filter_In, <- list_elem_of_In.
      intros [? ?]. done.
    - intros ?. split; [done|]. intros [=]. }
  destruct (truthy_int m) eqn:Hm; simpl.
  - case_bool_decide as Hnil; simpl.
    + rewrite Hnil. by intros ?%elem_of_nil.
    + rewrite list_elem_of_In, filter_In, <- list_elem_of_In.
      intros [Hx ?]. destruct (Hl r Hx). done.
  - intros Hx. destruct (Hl r Hx). done.
Qed.

(** A report on a descriptor reduces to an update of one performance
    record, a number of clock readings, one of the two loops over the
    pool, and possibly a save. *)
Lemma report_shape w proxy success rt save w' :
  report_proxy_result w (Some proxy) success rt save = Ok w' ->
  exists perf' tk,
    let w0 :=
      set_proxy_performance
        (<[proxy_id proxy := perf']> (proxy_performance w))
        (set_ticks tk w) in
    let w1 := if success then report_success w0 proxy
              else report_failure w0 proxy in
    w' = (if save then _save_proxies w1 else w1).
Proof.
  unfold report_proxy_result.
  destruct success.
  - cbn [datetime_now].
    destruct (truthy_int rt).
    + destruct (floordiv _ _) as [avg|]; simpl; [|done].
      intros [= <-]. by eexists _, (S (ticks w)).
    + simpl. intros [= <-]. by eexists _, (S (ticks w)).
  - simpl. intros [= <-]. eexists _, (ticks w).
    by destruct w.
Qed.

Lemma refresh_shape w fetched :
  refresh_proxies w fetched = w
  \/ exists l,
       fetched = Fetched l /\ use_proxies w = true
       /\ let w1 :=
            merge_new l
              (list_to_set (proxy_id <$> objects (heap w) (proxies w))) w in
          refresh_proxies w fetched =
            _save_proxies
              (set_last_refresh (Some (clock w1 (ticks w1)))
                 (set_ticks (S (ticks w1)) (refresh_active w1))).
Proof.
  unfold refresh_proxies. destruct (use_proxies w); simpl; [|by left].
  destruct fetched as [[|d l]|]; [by left| |by left].
  right. by exists (d :: l).
Qed.

Lemma health_shape w probes :
  health_tick w probes = w
  \/ health_tick w probes = _check_proxy_health w probes.
Proof.
  unfold health_tick. destruct (use_proxies w); [|by left].
  destruct (active_proxies w); [by left|by right].
Qed.

(** Loops keep what each of their rounds keeps. *)
Lemma run_checks_invariant (I : State -> Prop) :
  (forall w r p, I w -> I (_check_single_proxy w r p).2) ->
  forall rs i probes w, I w -> I (run_checks rs i probes w).2.
Proof.
  intros Hone. induction rs as [|r rs IH]; intros i probes w HI; [done|].
  simpl. specialize (Hone w r (probes i) HI).
  destruct (_check_single_proxy w r (probes i)) as [res w1].
  specialize (IH (S i) probes w1 Hone).
  by destruct (run_checks rs (S i) probes w1).
Qed.

Lemma process_results_invariant (I : State -> Prop) :
  (forall w r res, I w -> I (process_result r res w)) ->
  forall l w, I w -> I (process_results l w).
Proof.
  intros Hone. induction l as [|[r res] l IH]; intros w HI; [done|].
  simpl. by apply IH, Hone.
Qed.

Lemma merge_new_invariant (I : gset string -> State -> Prop) :
  (forall ids w proxy,
     I ids w -> proxy_id proxy ∉ ids ->
     I ({[proxy_id proxy]} ∪ ids)
       (set_proxies (proxies w ++ [length (heap w)])
          (set_heap
             (heap w ++ [set_added_at (clock w (ticks w))
                           (set_is_active true proxy)])
             (set_ticks (S (ticks w)) w)))) ->
  forall l ids w, I ids w -> exists ids', I ids' (merge_new l ids w).
Proof.
  intros Hone. induction l as [|proxy l IH]; intros ids w HI; [by exists ids|].
  simpl. destruct (decide (proxy_id proxy ∈ ids)); [by apply IH|].
  apply IH. by apply Hone.
Qed.

(** ** The active view *)

Lemma view_ok_step w ev w' : view_ok w -> step w ev = Ok w' -> view_ok w'.
Proof.
  unfold view_ok. intros Hv. destruct ev as [f|probes|c m draw|[proxy|] s rt save]; simpl.
  - intros [= <-]. destruct (refresh_shape w f) as [->|(l & _ & _ & ->)]; done.
  - intros [= <-]. destruct (health_shape w probes) as [->| ->]; [done|].
    unfold _check_proxy_health.
    by destruct (run_checks (active_proxies w) 0 probes w).
  - destruct (get_proxy_shape w c m draw) as [->|(r & _ & _ & ->)]; simpl;
      intros [= <-]; [done|].
    st_simpl. by rewrite active_view_alter.
  - intros (perf' & tk & ->)%report_shape.
    assert (forall w1, view_ok w1 -> view_ok (if save then _save_proxies w1 else w1))
      as Hsave by (intros w1 ?; by destruct save).
    apply Hsave. destruct s.
    + unfold report_success, view_ok. st_simpl.
      destruct (find_endpoint _ _ _); st_simpl; [|done].
      by rewrite active_view_alter.
    + unfold report_failure, view_ok. st_simpl.
      destruct (find_endpoint _ _ _) as [r|]; st_simpl; [|done].
      destruct (heap w !! r) as [p|]; st_simpl; [|done].
      destruct (3 <=? _); st_simpl; [done|].
      by rewrite active_view_alter.
  - by intros [= <-].
Qed.

Lemma view_ok_load w : view_ok (_load_saved_proxies w) \/ _load_saved_proxies w = w.
Proof.
  unfold _load_saved_proxies. destruct (cache_file w); [by left|by right].
Qed.

Lemma view_ok_init use clk tk file : view_ok (__init__ use clk tk file).
Proof.
  unfold __init__.
  destruct (view_ok_load (blank use clk tk file)) as [?| ->]; done.
Qed.

(** ** The pool *)

Lemma fmap_alter_same {B} (g : Descriptor -> B) f r (h : list Descriptor) :
  (forall d, g (f d) = g d) -> g <$> alter f r h = g <$> h.
Proof.
  intros Hf. apply list_eq. intros i. rewrite !list_lookup_fmap.
  destruct (decide (r = i)) as [->|Hne];
    [rewrite list_lookup_alter_eq|by rewrite list_lookup_alter_ne].
  destruct (h !! i); [simpl|done]. by rewrite Hf.
Qed.

Lemma pool_ok_mutate r f w :
  (forall d, proxy_id (f d) = proxy_id d) ->
  (forall d, is_Some (is_active d) -> is_Some (is_active (f d))) ->
  pool_ok w -> pool_ok (mutate r f w).
Proof.
  intros Hid Hact ((Hps & Hbl) & Hk & Hf).
  unfold pool_ok, alloc_ok, keys_ok, flags_ok. st_simpl.
  rewrite length_alter, fmap_alter_same by done.
  split_and!; [done..|].
  intros r' d'. destruct (decide (r = r')) as [->|Hne];
    [rewrite list_lookup_alter_eq|rewrite list_lookup_alter_ne by done; apply Hf].
  destruct (heap w !! r') as [d|] eqn:Hd; [|done].
  intros [= <-]. eapply Hact, Hf. done.
Qed.

Lemma pool_ok_blacklist_append r w :
  is_Some (heap w !! r) -> pool_ok w -> pool_ok (blacklist_append r w).
Proof.
  intros Hr ((Hps & Hbl) & Hk & Hf).
  unfold pool_ok, alloc_ok, keys_ok, flags_ok. st_simpl.
  split_and!; [done| |done..].
  intros r' [?| ->%list_elem_of_singleton]%elem_of_app; [by apply Hbl|].
  rewrite Hps. apply elem_of_seq. apply lookup_lt_is_Some in Hr. lia.
Qed.

Lemma pool_ok_frame w w' :
  heap w' = heap w -> proxies w' = proxies w ->
  blacklisted_proxies w' = blacklisted_proxies w ->
  pool_ok w -> pool_ok w'.
Proof.
  unfold pool_ok, alloc_ok, keys_ok, flags_ok. by intros -> -> ->.
Qed.

Lemma pool_ok_check_single w r p :
  pool_ok w -> pool_ok (_check_single_proxy w r p).2.
Proof.
  intros Hw. unfold _check_single_proxy.
  destruct p as [rt| |]; [|done..].
  destruct (heap w !! r) as [d|]; [|done].
  destruct (_ =? 0); [done|].
  cbn [datetime_now snd].
  do 2 (apply pool_ok_mutate; [done..|]).
  by apply (pool_ok_frame w).
Qed.

Lemma pool_ok_process_result w r res :
  pool_ok w -> pool_ok (process_result r res w).
Proof.
  intros Hw. destruct res; simpl; [by apply pool_ok_mutate| |done].
  destruct (heap w !! r) as [d|] eqn:Hd; [|done].
  destruct (3 <=? _); [|by apply pool_ok_mutate].
  apply pool_ok_blacklist_append.
  { st_simpl. rewrite !list_lookup_alter_eq, Hd. by eexists. }
  by do 2 (apply pool_ok_mutate; [done..|]).
Qed.

Lemma pool_ok_save w : pool_ok w -> pool_ok (_save_proxies w).
Proof. by apply pool_ok_frame. Qed.

Lemma pool_ok_check_health w probes :
  pool_ok w -> pool_ok (_check_proxy_health w probes).
Proof.
  intros Hw. unfold _check_proxy_health.
  pose proof (run_checks_invariant pool_ok pool_ok_check_single
                (active_proxies w) 0%nat probes w Hw) as H1.
  destruct (run_checks (active_proxies w) 0 probes w) as [results w1].
  apply pool_ok_save.
  eapply pool_ok_frame; [reflexivity..|].
  by apply process_results_invariant; [apply pool_ok_process_result|].
Qed.

Lemma pool_ok_merge_new l w :
  pool_ok w ->
  pool_ok (merge_new l (list_to_set (proxy_id <$> objects (heap w) (proxies w))) w).
Proof.
  intros Hw.
  destruct (merge_new_invariant
    (fun ids w => pool_ok w /\ forall k, k ∈ ids <-> k ∈ proxy_id <$> heap w))
    with (l := l) (w := w)
         (ids := (list_to_set (proxy_id <$> objects (heap w) (proxies w)) : gset string))
    as (ids' & H & _); [| |done].
  - clear. intros ids w proxy [((Hps & Hbl) & Hk & Hf) Hids] Hnew.
    unfold pool_ok, alloc_ok, keys_ok, flags_ok. st_simpl.
    rewrite length_app, Nat.add_1_r, seq_S, Hps, fmap_app. simpl.
    split_and!; [done| | | |].
    + intros r Hr. apply elem_of_app. left. rewrite <- Hps. by apply Hbl.
    + apply NoDup_app. split_and!; [done| |apply NoDup_singleton].
      intros k Hk1 ->%list_elem_of_singleton. by apply Hnew, Hids.
    + intros r d [Hd|[_ Hd]]%lookup_app_Some; [by eapply Hf|].
      destruct (r - length (heap w))%nat; [|done].
      simpl in Hd. injection Hd as <-. by eexists.
    + intros k. rewrite elem_of_union, elem_of_singleton, Hids, elem_of_app,
        list_elem_of_singleton. tauto.
  - split; [done|]. intros k. rewrite elem_of_list_to_set.
    destruct Hw as ((Hps & _) & _). by rewrite Hps, objects_all.
Qed.

Lemma pool_ok_step w ev w' : pool_ok w -> step w ev = Ok w' -> pool_ok w'.
Proof.
  intros Hw. destruct ev as [f|probes|c m draw|[proxy|] s rt save]; simpl.
  - intros [= <-]. destruct (refresh_shape w f) as [->|(l & _ & _ & ->)]; [done|].
    apply pool_ok_save. eapply pool_ok_frame; [reflexivity..|].
    by apply pool_ok_merge_new.
  - intros [= <-]. destruct (health_shape w probes) as [->| ->]; [done|].
    by apply pool_ok_check_health.
  - destruct (get_proxy_shape w c m draw) as [->|(r & _ & _ & ->)]; simpl;
      intros [= <-]; [done|].
    apply pool_ok_mutate; [done..|]. by apply (pool_ok_frame w).
  - intros (perf' & tk & ->)%report_shape.
    assert (forall w1, pool_ok w1 -> pool_ok (if save then _save_proxies w1 else w1))
      as Hsave by (intros w1 ?; destruct save; [by apply pool_ok_save|done]).
    apply Hsave.
    set (w0 := set_proxy_performance _ _).
    assert (pool_ok w0) as Hw0 by (by apply (pool_ok_frame w)).
    clearbody w0. destruct s.
    + unfold report_success. destruct (find_endpoint _ _ _); [|done].
      by apply pool_ok_mutate.
    + unfold report_failure.
      destruct (find_endpoint _ _ _) as [r|]; [|done].
      destruct (heap w0 !! r) as [p|] eqn:Hp; [|done].
      destruct (3 <=? _); [|by apply pool_ok_mutate].
      eapply pool_ok_frame; [reflexivity..|].
      apply pool_ok_blacklist_append.
      { st_simpl. rewrite !list_lookup_alter_eq, Hp. by eexists. }
      by do 2 (apply pool_ok_mutate; [done..|]).
  - by intros [= <-].
Qed.

Lemma pool_ok_initial use clk : pool_ok (initial use clk).
Proof.
  unfold pool_ok, alloc_ok, keys_ok, flags_ok. simpl.
  split_and!; [done|done|constructor|done].
Qed.

(** ** Three strikes *)

Lemma strike_ok_frame w w' :
  heap w' = heap w -> blacklisted_proxies w' = blacklisted_proxies w ->
  strike_ok w -> strike_ok w'.
Proof. unfold strike_ok. by intros -> ->. Qed.

Lemma strike_ok_mutate_keep r f w :
  (forall d, failure_count (f d) = failure_count d) ->
  (forall d, is_active (f d) = is_active d) ->
  strike_ok w -> strike_ok (mutate r f w).
Proof.
  intros Hfc Hact Hw r' d'. st_simpl.
  destruct (decide (r = r')) as [->|Hne];
    [rewrite list_lookup_alter_eq|rewrite list_lookup_alter_ne by done; apply Hw].
  destruct (heap w !! r') as [d|] eqn:Hd; [|done].
  intros [= <-] (n & Hn & Hge). rewrite Hfc in Hn. rewrite Hact.
  apply (Hw r' d Hd). by exists n.
Qed.

Lemma strike_ok_reset r w :
  strike_ok w -> strike_ok (mutate r (set_failure_count 0) w).
Proof.
  intros Hw r' d'. st_simpl.
  destruct (decide (r = r')) as [->|Hne];
    [rewrite list_lookup_alter_eq|rewrite list_lookup_alter_ne by done; apply Hw].
  destruct (heap w !! r') as [d|] eqn:Hd; [|done].
  intros [= <-] (n & Hn & Hge). simpl in Hn. injection Hn as <-. lia.
Qed.

Lemma strike_ok_strike r p w :
  strike_ok w -> strike_ok (strike r p w).
Proof.
  intros Hw. unfold strike.
  set (n := default 0 (failure_count p) + 1).
  destruct (3 <=? n) eqn:Hn; intros r' d'; st_simpl.
  - destruct (decide (r = r')) as [->|Hne].
    + rewrite !list_lookup_alter_eq.
      destruct (heap w !! r') as [d|] eqn:Hd; [|done].
      intros [= <-] _. split; [done|].
      apply elem_of_app. right. by apply list_elem_of_singleton.
    + rewrite !list_lookup_alter_ne by done. intros Hd Hs.
      destruct (Hw r' d' Hd Hs) as [? ?]. split; [done|].
      apply elem_of_app. by left.
  - destruct (decide (r = r')) as [->|Hne];
      [rewrite list_lookup_alter_eq|rewrite list_lookup_alter_ne by done; apply Hw].
    destruct (heap w !! r') as [d|] eqn:Hd; [|done].
    intros [= <-] (k & Hk & Hge). simpl in Hk. injection Hk as <-.
    apply Z.leb_gt in Hn. lia.
Qed.

Lemma strike_ok_check_single w r p :
  strike_ok w -> strike_ok (_check_single_proxy w r p).2.
Proof.
  intros Hw. unfold _check_single_proxy.
  destruct p as [rt| |]; [|done..].
  destruct (heap w !! r) as [d|]; [|done].
  destruct (_ =? 0); [done|].
  cbn [datetime_now snd].
  do 2 (apply strike_ok_mutate_keep; [done..|]).
  by apply (strike_ok_frame w).
Qed.

Lemma strike_ok_process_result w r res :
  strike_ok w -> strike_ok (process_result r res w).
Proof.
  intros Hw. destruct res; simpl; [by apply strike_ok_reset| |done].
  destruct (heap w !! r) as [d|] eqn:Hd; [|done].
  by apply (strike_ok_strike r d).
Qed.

Lemma strike_ok_save w : strike_ok w -> strike_ok (_save_proxies w).
Proof. by apply strike_ok_frame. Qed.

Lemma strike_ok_check_health w probes :
  strike_ok w -> strike_ok (_check_proxy_health w probes).
Proof.
  intros Hw. unfold _check_proxy_health.
  pose proof (run_checks_invariant strike_ok strike_ok_check_single
                (active_proxies w) 0%nat probes w Hw) as H1.
  destruct (run_checks (active_proxies w) 0 probes w) as [results w1].
  apply strike_ok_save.
  eapply strike_ok_frame; [reflexivity..|].
  by apply process_results_invariant; [apply strike_ok_process_result|].
Qed.

Lemma strike_ok_merge_new l ids w :
  Forall fresh_descriptor l -> strike_ok w -> strike_ok (merge_new l ids w).
Proof.
  revert ids w. induction l as [|proxy l IH]; intros ids w Hl Hw; [done|].
  inversion Hl as [|? ? Hfresh Hrest]; subst. simpl.
  destruct (decide (proxy_id proxy ∈ ids)) as [|Hnew]; [by apply IH|].
  apply IH; [done|]. intros r d. st_simpl.
  intros [Hd|[_ Hd]]%lookup_app_Some; [by apply Hw|].
  destruct (r - length (heap w))%nat; [|done].
  simpl in Hd. injection Hd as <-. intros (n & Hn & Hge).
  simpl in Hn. apply Hfresh in Hn. lia.
Qed.

Lemma strike_ok_step w ev w' :
  fresh_fetch ev -> strike_ok w -> step w ev = Ok w' -> strike_ok w'.
Proof.
  intros Hev Hw. destruct ev as [f|probes|c m draw|[proxy|] s rt save]; simpl.
  - intros [= <-]. destruct (refresh_shape w f) as [->|(l & -> & _ & ->)]; [done|].
    apply strike_ok_save. eapply strike_ok_frame; [reflexivity..|].
    by apply strike_ok_merge_new.
  - intros [= <-]. destruct (health_shape w probes) as [->| ->]; [done|].
    by apply strike_ok_check_health.
  - destruct (get_proxy_shape w c m draw) as [->|(r & _ & _ & ->)]; simpl;
      intros [= <-]; [done|].
    apply strike_ok_mutate_keep; [done..|]. by apply (strike_ok_frame w).
  - intros (perf' & tk & ->)%report_shape.
    assert (forall w1, strike_ok w1 ->
              strike_ok (if save then _save_proxies w1 else w1))
      as Hsave by (intros w1 ?; destruct save; [by apply strike_ok_save|done]).
    apply Hsave.
    set (w0 := set_proxy_performance _ _).
    assert (strike_ok w0) as Hw0 by (by apply (strike_ok_frame w)).
    clearbody w0. destruct s.
    + unfold report_success. destruct (find_endpoint _ _ _); [|done].
      by apply strike_ok_reset.
    + unfold report_failure.
      destruct (find_endpoint _ _ _) as [r|]; [|done].
      destruct (heap w0 !! r) as [p|] eqn:Hp; [|done].
      pose proof (strike_ok_strike r p w0 Hw0) as Hs. unfold strike in Hs.
      destruct (3 <=? _); [|done].
      by eapply strike_ok_frame; [reflexivity..|].
  - by intros [= <-].
Qed.

Lemma strike_ok_initial use clk : strike_ok (initial use clk).
Proof. intros r d. simpl. done. Qed.

(** ** Performance records *)

Lemma report_success_perf w proxy :
  proxy_performance (report_success w proxy) = proxy_performance w.
Proof. unfold report_success. by destruct (find_endpoint _ _ _). Qed.

Lemma report_failure_perf w proxy :
  proxy_performance (report_failure w proxy) = proxy_performance w.
Proof.
  unfold report_failure. destruct (find_endpoint _ _ _) as [r|]; [|done].
  destruct (heap w !! r); [|done]. by destruct (3 <=? _).
Qed.

(** The record a report leaves under the id of the reported descriptor. *)
Lemma report_perf w proxy success rt save w' :
  report_proxy_result w (Some proxy) success rt save = Ok w' ->
  let perf := default Perf.fresh (proxy_performance w !! proxy_id proxy) in
  exists perf',
    proxy_performance w' = <[proxy_id proxy := perf']> (proxy_performance w)
    /\ Perf.total_requests perf' = Perf.total_requests perf + 1
    /\ if success then
         Perf.successful_requests perf' = Perf.successful_requests perf + 1
         /\ if truthy_int rt then
              Perf.successful_requests perf' <> 0
              /\ Perf.total_response_time perf' =
                   Perf.total_response_time perf + default 0 rt
              /\ Perf.avg_response_time perf' =
                   Perf.total_response_time perf'
                   / Perf.successful_requests perf'
            else
              Perf.total_response_time perf' = Perf.total_response_time perf
              /\ Perf.avg_response_time perf' = Perf.avg_response_time perf
       else
         Perf.successful_requests perf' = Perf.successful_requests perf
         /\ Perf.total_response_time perf' = Perf.total_response_time perf
         /\ Perf.avg_response_time perf' = Perf.avg_response_time perf
         /\ Perf.last_success perf' = Perf.last_success perf.
Proof.
  cbv zeta. unfold report_proxy_result.
  set (perf := default Perf.fresh _).
  assert (forall w1, proxy_performance (if save then _save_proxies w1 else w1)
                     = proxy_performance w1) as Hsave by (by destruct save).
  destruct success.
  - cbn [datetime_now]. destruct (truthy_int rt).
    + unfold floordiv.
      destruct (Perf.successful_requests perf + 1 =? 0) eqn:Hz; simpl; [done|].
      intros [= <-]. eexists. rewrite Hsave, report_success_perf. st_simpl.
      split; [done|]. simpl. split_and!; try done. by apply Z.eqb_neq.
    + simpl. intros [= <-]. eexists. rewrite Hsave, report_success_perf.
      st_simpl. split; [done|]. by simpl.
  - simpl. intros [= <-]. eexists. rewrite Hsave, report_failure_perf.
    st_simpl. split; [done|]. by simpl.
Qed.

(** The record a successful probe leaves, and that nothing else changes. *)
Lemma check_single_perf w r p :
  let w' := (_check_single_proxy w r p).2 in
  proxy_performance w' = proxy_performance w
  \/ exists d rt perf',
       p = ProbeTrue rt /\ heap w !! r = Some d
       /\ proxy_performance w' = <[proxy_id d := perf']> (proxy_performance w)
       /\ let perf := default Perf.fresh (proxy_performance w !! proxy_id d) in
          Perf.total_requests perf' = Perf.total_requests perf + 1
          /\ Perf.successful_requests perf' = Perf.successful_requests perf + 1
          /\ Perf.total_response_time perf' = Perf.total_response_time perf + rt
          /\ (Perf.successful_requests perf' = 0
              /\ Perf.avg_response_time perf' = Perf.avg_response_time perf
              \/ Perf.successful_requests perf' <> 0
                 /\ Perf.avg_response_time perf' =
                      Perf.total_response_time perf'
                      / Perf.successful_requests perf').
Proof.
  unfold _check_single_proxy.
  destruct p as [rt| |]; [|by left..].
  destruct (heap w !! r) as [d|] eqn:Hd; [|by left].
  right. exists d, rt.
  destruct (_ =? 0) eqn:Hz.
  - eexists. st_simpl. split_and!; try done. simpl. left.
    by apply Z.eqb_eq in Hz.
  - eexists. st_simpl. split_and!; try done. simpl. right.
    by apply Z.eqb_neq in Hz.
Qed.

Lemma perf_ok_frame P w w' :
  proxy_performance w' = proxy_performance w -> perf_ok P w -> perf_ok P w'.
Proof. unfold perf_ok. by intros ->. Qed.

Lemma perf_ok_insert P w w' k p :
  proxy_performance w' = <[k := p]> (proxy_performance w) ->
  P p -> perf_ok P w -> perf_ok P w'.
Proof.
  unfold perf_ok. intros -> Hp Hw k' p'.
  destruct (decide (k = k')) as [->|Hne].
  - rewrite lookup_insert_eq. by intros [= <-].
  - rewrite lookup_insert_ne by done. apply Hw.
Qed.

Lemma perf_ok_default P w k :
  P Perf.fresh -> perf_ok P w -> P (default Perf.fresh (proxy_performance w !! k)).
Proof.
  intros Hf Hw. destruct (proxy_performance w !! k) as [p|] eqn:Hp; [|done].
  by apply (Hw k).
Qed.

Lemma counts_ok_fresh : counts_ok Perf.fresh.
Proof. unfold counts_ok. simpl. lia. Qed.

Lemma average_ok_fresh : average_ok Perf.fresh.
Proof. done. Qed.

Lemma timed_ok_fresh : timed_ok Perf.fresh.
Proof. split; [apply counts_ok_fresh|apply average_ok_fresh]. Qed.

Lemma process_results_perf l w :
  proxy_performance (process_results l w) = proxy_performance w.
Proof.
  apply (process_results_invariant
           (fun w' => proxy_performance w' = proxy_performance w)); [|done].
  intros w1 r res <-. destruct res; simpl; [done| |done].
  destruct (heap w1 !! r); [|done]. by destruct (3 <=? _).
Qed.

Lemma merge_new_perf l ids w :
  proxy_performance (merge_new l ids w) = proxy_performance w.
Proof.
  revert ids w. induction l as [|proxy l IH]; intros ids w; [done|].
  simpl. destruct (decide _); [apply IH|]. by rewrite IH.
Qed.

(** A probe keeps both properties of the records. *)
Lemma perf_ok_check_single P w r p :
  (P = counts_ok \/ P = timed_ok) ->
  perf_ok P w -> perf_ok P (_check_single_proxy w r p).2.
Proof.
  intros HP Hw.
  destruct (check_single_perf w r p) as [He|(d & rt & perf' & _ & _ & He & H)].
  { by apply (perf_ok_frame P w). }
  apply (perf_ok_insert P w _ _ _ He); [|done].
  assert (timed_ok Perf.fresh) as [Hf1 Hf2] by apply timed_ok_fresh.
  cbv zeta in H. destruct H as (Ht & Hs & Hr & Ha).
  destruct HP as [-> | ->].
  - pose proof (perf_ok_default _ w (proxy_id d) Hf1 Hw) as [Hc Hz].
    unfold counts_ok. rewrite Ht, Hs. split; [lia|]. lia.
  - pose proof (perf_ok_default _ w (proxy_id d) timed_ok_fresh Hw)
      as [[Hc Hz] Hav].
    split; unfold counts_ok, average_ok.
    + rewrite Ht, Hs. lia.
    + destruct Ha as [[? ?]|[? ->]]; [lia|].
      destruct (0 <? Perf.successful_requests perf') eqn:Hpos; [done|].
      apply Z.ltb_ge in Hpos. lia.
Qed.

Lemma perf_ok_step P w ev w' :
  (P = counts_ok \/ P = timed_ok /\ timed_success ev) ->
  perf_ok P w -> step w ev = Ok w' -> perf_ok P w'.
Proof.
  intros HP Hw. destruct ev as [f|probes|c m draw|[proxy|] s rt save]; simpl.
  - intros [= <-]. destruct (refresh_shape w f) as [->|(l & _ & _ & ->)]; [done|].
    apply (perf_ok_frame P w); [|done]. st_simpl. apply merge_new_perf.
  - intros [= <-]. destruct (health_shape w probes) as [->| ->]; [done|].
    unfold _check_proxy_health.
    assert (P = counts_ok \/ P = timed_ok) as HP' by tauto.
    pose proof (run_checks_invariant (perf_ok P)
                  (fun w r p => perf_ok_check_single P w r p HP')
                  (active_proxies w) 0%nat probes w Hw) as H1.
    destruct (run_checks (active_proxies w) 0 probes w) as [results w1].
    apply (perf_ok_frame P w1); [|done]. st_simpl. apply process_results_perf.
  - destruct (get_proxy_shape w c m draw) as [->|(r & _ & _ & ->)]; simpl;
      intros [= <-]; [done|]. by apply (perf_ok_frame P w).
  - intros (perf' & He & Ht & H)%report_perf.
    apply (perf_ok_insert P w _ _ _ He); [|done].
    set (perf := default Perf.fresh _) in *.
    destruct HP as [-> | [-> Hev]].
    + pose proof (perf_ok_default _ w (proxy_id proxy) counts_ok_fresh Hw)
        as [Hc Hz]. fold perf in Hc, Hz.
      unfold counts_ok. rewrite Ht. destruct s.
      * destruct H as [Hs H]. rewrite Hs. lia.
      * destruct H as (Hs & _ & Ha & _). rewrite Hs, Ha. lia.
    + pose proof (perf_ok_default _ w (proxy_id proxy) timed_ok_fresh Hw)
        as [[Hc Hz] Hav]. fold perf in Hc, Hz, Hav.
      unfold average_ok in Hav.
      split; unfold counts_ok, average_ok; rewrite ?Ht; destruct s.
      * destruct H as [Hs H]. rewrite Hs. lia.
      * destruct H as (Hs & _ & Ha & _). rewrite Hs, Ha. lia.
      * simpl in Hev. rewrite Hev in H. destruct H as (Hs & _ & _ & ->).
        destruct (0 <? Perf.successful_requests perf') eqn:Hpos; [done|].
        apply Z.ltb_ge in Hpos. lia.
      * destruct H as (Hs & Hr & Ha & _). by rewrite Hs, Hr, Ha.
  - by intros [= <-].
Qed.

Lemma perf_ok_initial P use clk : perf_ok P (initial use clk).
Proof. intros k p. simpl. by rewrite lookup_empty. Qed.

(** ** No exception on the way *)

Lemma get_proxy_total w c m draw : exists res, get_proxy w c m draw = Ok res.
Proof.
  destruct (get_proxy_shape w c m draw) as [->|(r & _ & _ & ->)]; by eexists.
Qed.

Lemma report_total w proxy success rt save :
  perf_ok counts_ok w ->
  exists w', report_proxy_result w proxy success rt save = Ok w'.
Proof.
  intros Hw. destruct proxy as [proxy|]; [|by eexists].
  unfold report_proxy_result.
  pose proof (perf_ok_default _ w (proxy_id proxy) counts_ok_fresh Hw)
    as [Hc _].
  destruct success; [|by eexists].
  cbn [datetime_now]. destruct (truthy_int rt); [|by eexists].
  unfold floordiv.
  destruct (_ =? 0) eqn:Hz; [|by eexists].
  apply Z.eqb_eq in Hz. lia.
Qed.

Lemma step_total w ev : perf_ok counts_ok w -> exists w', step w ev = Ok w'.
Proof.
  intros Hw. destruct ev as [f|probes|c m draw|proxy s rt save]; simpl.
  - by eexists.
  - by eexists.
  - destruct (get_proxy_total w c m draw) as [res ->]. by eexists.
  - by apply report_total.
Qed.

(** Every history that starts without a cache file runs to its end. *)
Lemma run_total use clk evs : exists w, run (initial use clk) evs = Ok w.
Proof.
  assert (forall w, perf_ok counts_ok w -> exists w', run w evs = Ok w') as H.
  { induction evs as [|ev evs IH]; intros w Hw; [by eexists|].
    simpl. destruct (step_total w ev Hw) as [w1 Hs]. rewrite Hs. simpl.
    apply IH. eapply perf_ok_step; [by left|done|done]. }
  apply H, perf_ok_initial.
Qed.

(** ** The invariants along histories *)

Lemma reachable_pool_ok use clk evs w :
  run (initial use clk) evs = Ok w -> pool_ok w.
Proof.
  apply (run_invariant pool_ok (fun _ => True)).
  - intros w0 ev w1 H _. by apply pool_ok_step.
  - apply pool_ok_initial.
  - apply Forall_any_event.
Qed.

Lemma reachable_view_ok use clk tk file evs w :
  run (__init__ use clk tk file) evs = Ok w -> view_ok w.
Proof.
  apply (run_invariant view_ok (fun _ => True)).
  - intros w0 ev w1 H _. by apply view_ok_step.
  - apply view_ok_init.
  - apply Forall_any_event.
Qed.

Lemma reachable_strike_ok use clk evs w :
  Forall fresh_fetch evs -> run (initial use clk) evs = Ok w -> strike_ok w.
Proof.
  intros Hev. apply (run_invariant strike_ok fresh_fetch); [|apply strike_ok_initial|done].
  intros w0 ev w1 H ?. by apply strike_ok_step.
Qed.

Lemma reachable_counts_ok use clk evs w :
  run (initial use clk) evs = Ok w -> perf_ok counts_ok w.
Proof.
  apply (run_invariant (perf_ok counts_ok) (fun _ => True)).
  - intros w0 ev w1 H _. apply perf_ok_step; [by left|done].
  - apply perf_ok_initial.
  - apply Forall_any_event.
Qed.

Lemma pool_ok_lookup w r :
  pool_ok w -> r ∈ proxies w -> exists d, heap w !! r = Some d.
Proof.
  intros ((Hps & _) & _) Hr. rewrite Hps in Hr. apply elem_of_seq in Hr.
  apply lookup_lt_is_Some. lia.
Qed.

(** ** C1: the three-strike rule *)

(** C1, amended.  In every state reached from the empty pool by
    refreshes (of descriptors that have not yet failed three times),
    reports, health checks and selections, a descriptor of the pool with
    [failure_count >= 3] has [is_active = False] and is in the
    blacklist. *)
Theorem three_strikes_are_blacklisted use clk evs w :
  Forall fresh_fetch evs ->
  run (initial use clk) evs = Ok w ->
  three_strikes_blacklisted w.
Proof.
  intros Hev Hrun r Hr.
  destruct (pool_ok_lookup w r (reachable_pool_ok _ _ _ _ Hrun) Hr) as [d Hd].
  exists d. split; [done|].
  by apply (reachable_strike_ok use clk evs w Hev Hrun r d).
Qed.

Lemma three_strikes_are_blacklisted_witness :
  exists w d,
    run (initial true sample_clock) busy_history = Ok w
    /\ heap w !! 0%nat = Some d
    /\ failure_count d = Some 4
    /\ three_strikes_blacklisted w.
Proof.
  eexists _, _. split; [vm_compute; reflexivity|].
  split; [reflexivity|]. split; [reflexivity|].
  apply (three_strikes_are_blacklisted true sample_clock busy_history).
  - unfold busy_history, fail.
    repeat (apply Forall_cons; split; [simpl|]); try done;
      repeat (apply Forall_cons; split; [intros n [=]|]); done.
  - vm_compute. reflexivity.
Defined.

(** C1 as stated fails from right to left: after three failures and one
    success of the same proxy its descriptor is inactive and blacklisted
    with [failure_count = 0]. *)
Lemma three_strike_rule_counterexample :
  exists w,
    run (initial true sample_clock) strikes_then_success = Ok w
    /\ ~ three_strike_rule w.
Proof.
  eexists. split; [vm_compute; reflexivity|].
  intros H.
  destruct (H 0%nat (set_added_at 1000
                       (set_failure_count 0 (set_is_active false proxy_a))))
    as [_ Hback].
  - by left.
  - reflexivity.
  - destruct Hback as (n & Hn & Hge).
    + split; [reflexivity|]. by left.
    + simpl in Hn. injection Hn as <-. lia.
Qed.

(** ** C2: soundness of the selector *)

(** C2, amended.  In every state reached from the empty pool, a
    descriptor returned by [get_proxy(country=c, max_response_time=m)]
    belongs to the pool and is active; its country is [c] when [c] is a
    non-empty string; when [m] is a bound other than 0, its
    [avg_response_time], read as 999999 when none is recorded, is at most
    [m], so that a descriptor without recorded latency is excluded by
    every such bound below 999999. *)
Theorem get_proxy_sound use clk evs w :
  run (initial use clk) evs = Ok w -> selection_sound w.
Proof.
  intros Hrun c m draw r w' Hget.
  pose proof (reachable_pool_ok _ _ _ _ Hrun) as (_ & _ & Hflags).
  pose proof (reachable_view_ok use clk 0%nat None evs w Hrun) as Hview.
  destruct (get_proxy_shape w c m draw) as [He|(r' & Hr' & _ & He)];
    rewrite He in Hget; [done|].
  injection Hget as <- <-.
  apply elem_of_filtered_proxies in Hr' as (Hact & Hc & Hm).
  rewrite Hview in Hact.
  apply elem_of_active_view in Hact as (Hin & d & Hd & Hon).
  split; [done|].
  exists (set_last_used (clock w (ticks w)) d). st_simpl.
  rewrite list_lookup_alter_eq, Hd. split; [done|].
  unfold country_matches, within_response_time in *. rewrite Hd in *.
  split_and!.
  - destruct (Hflags r' d Hd) as [b Hb]. unfold get_is_active in Hon.
    rewrite Hb in *. simpl in *. by subst b.
  - intros Ht. specialize (Hc Ht). by apply bool_decide_eq_true in Hc.
  - intros Ht. specialize (Hm Ht). simpl. by apply Z.leb_le in Hm.
  - intros Ht Hlt. specialize (Hm Ht). apply Z.leb_le in Hm. simpl.
    destruct (avg_response_time d); [by eexists|]. simpl in Hm. lia.
Qed.

Lemma get_proxy_sound_witness :
  exists w,
    run (initial true sample_clock) one_up_one_down = Ok w
    /\ selection_sound w.
Proof.
  eexists. split; [vm_compute; reflexivity|].
  apply (get_proxy_sound true sample_clock one_up_one_down).
  vm_compute. reflexivity.
Defined.

(** C2 as stated fails.  With [proxy_a] measured at 50 ms and [proxy_b]
    never measured, [max_response_time=0] returns [proxy_a] (50 > 0),
    [max_response_time=1000000] returns the unmeasured [proxy_b], and
    [country=""] returns [proxy_b], whose country is ["gb"]. *)
Lemma selection_sound_counterexample :
  exists w,
    run (initial true sample_clock) one_up_one_down = Ok w
    /\ (exists w' d,
          get_proxy w None (Some 0) (mkDraw 0 0) = Ok (Some 0%nat, w')
          /\ heap w' !! 0%nat = Some d
          /\ avg_response_time d = Some 50)
    /\ (exists w' d,
          get_proxy w None (Some 1000000) (mkDraw 1 0) = Ok (Some 1%nat, w')
          /\ heap w' !! 1%nat = Some d
          /\ avg_response_time d = None)
    /\ (exists w' d,
          get_proxy w (Some "") None (mkDraw 1 0) = Ok (Some 1%nat, w')
          /\ heap w' !! 1%nat = Some d
          /\ country d = Some "gb")
    /\ ~ selection_sound_as_stated w.
Proof.
  eexists. split; [vm_compute; reflexivity|].
  split_and!.
  - eexists _, _. split_and!; [vm_compute; reflexivity|reflexivity|reflexivity].
  - eexists _, _. split_and!; [vm_compute; reflexivity|reflexivity|reflexivity].
  - eexists _, _. split_and!; [vm_compute; reflexivity|reflexivity|reflexivity].
  - intros H.
    edestruct (H None (Some 0) (mkDraw 0 0) 0%nat) as (d & Hd & _ & _ & Hm).
    { vm_compute. reflexivity. }
    destruct (Hm 0 eq_refl) as (a & Ha & Hle).
    injection Hd as <-. simpl in Ha. injection Ha as <-. lia.
Qed.

(** ** C3: zone synthesis *)

(** C3, amended.  With zone ["z1"], user ["u"] and password ["p"] the
    provider returns 23 descriptors: one per country code, with username
    ["u-zone-z1-country-{cc}"], then 5 rotating ones with username
    ["u-zone-z1"]; all of them on [zproxy.lum-superproxy.io:22225].
    [refresh()] on an empty pool keeps one descriptor per proxy id
    ["host:port"]; the 23 share one id, so the pool holds the first of
    them only. *)
Theorem zone_synthesis (clk : nat -> timestamp) (from_api : list Descriptor) :
  let fetched := LuminatiProvider.get_proxies luminati_u_p_z1 from_api in
  length fetched = 23%nat
  /\ length LuminatiProvider.countries = 18%nat
  /\ (forall i cc, LuminatiProvider.countries !! i = Some cc ->
        exists d, fetched !! i = Some d
          /\ zone_descriptor ("u-zone-z1-country-" +:+ cc) cc d)
  /\ (forall i, (18 <= i < 23)%nat ->
        exists d, fetched !! i = Some d /\ zone_descriptor "u-zone-z1" "any" d)
  /\ (forall d, d ∈ fetched -> proxy_id d = "zproxy.lum-superproxy.io:22225")
  /\ objects (heap (zone_refresh clk from_api)) (proxies (zone_refresh clk from_api))
     = [set_added_at (clk 0%nat)
          (LuminatiProvider.country_proxy luminati_u_p_z1 "us")].
Proof.
  cbv zeta.
  change (LuminatiProvider.get_proxies luminati_u_p_z1 from_api)
    with (LuminatiProvider._generate_zone_proxies luminati_u_p_z1).
  split_and!.
  - reflexivity.
  - reflexivity.
  - intros i cc Hi.
    do 18 (destruct i as [|i];
           [injection Hi as <-; eexists; split; [reflexivity|by repeat split]|]).
    done.
  - intros i Hi.
    do 18 (destruct i as [|i]; [lia|]).
    do 5 (destruct i as [|i];
          [eexists; split; [reflexivity|by repeat split]|]).
    lia.
  - intros d Hd.
    unfold LuminatiProvider._generate_zone_proxies in Hd.
    apply elem_of_app in Hd as [Hd|Hd]; apply list_elem_of_fmap in Hd as (x & -> & _);
      vm_compute; reflexivity.
  - unfold zone_refresh. vm_compute. reflexivity.
Qed.

(** C3 as stated fails: after [refresh()] the pool holds one descriptor,
    not 23. *)
Lemma zone_synthesis_counterexample :
  length (proxies (zone_refresh sample_clock [])) = 1%nat
  /\ length (proxies (zone_refresh sample_clock [])) <> 23%nat.
Proof. split; [vm_compute; reflexivity|vm_compute; lia]. Qed.

(** ** C4: selection weights *)

Lemma total_weight_cons x l : total_weight (x :: l) = weight x.2 + total_weight l.
Proof. done. Qed.

(** Where the walk over the weights stops. *)
Lemma weighted_walk_spec l r cw :
  match weighted_walk l r cw with
  | Some p =>
      exists i rt,
        l !! i = Some (p, rt)
        /\ (r <= inject_Z (cw + total_weight (take (S i) l)))%Q
        /\ forall j, (j < i)%nat ->
             (inject_Z (cw + total_weight (take (S j) l)) < r)%Q
  | None =>
      forall j, (j < length l)%nat ->
        (inject_Z (cw + total_weight (take (S j) l)) < r)%Q
  end.
Proof.
  revert cw. induction l as [|[p rt] l IH]; intros cw.
  { simpl. intros j Hj. lia. }
  cbn [weighted_walk length].
  destruct (Qle_bool r (inject_Z (cw + weight rt))) eqn:Hle.
  - exists 0%nat, rt. split; [done|]. split; [|intros j Hj; lia].
    apply Qle_bool_iff in Hle.
    rewrite firstn_cons, take_0, total_weight_cons. simpl.
    by rewrite Z.add_0_r.
  - assert (inject_Z (cw + weight rt) < r)%Q as Hlt.
    { apply Qnot_le_lt. intros H%Qle_bool_iff. congruence. }
    assert (forall j, cw + total_weight ((p, rt) :: take j l)
                      = cw + weight rt + total_weight (take j l)) as Hshift.
    { intros j. rewrite total_weight_cons. simpl. lia. }
    specialize (IH (cw + weight rt)).
    destruct (weighted_walk l r (cw + weight rt)) as [q|].
    + destruct IH as (i & rt' & Hi & Hstop & Hbefore).
      exists (S i), rt'. split; [done|]. split.
      * rewrite firstn_cons, Hshift. done.
      * intros [|j] Hj.
        -- rewrite firstn_cons, Hshift, take_0. simpl. by rewrite Z.add_0_r.
        -- rewrite firstn_cons, Hshift. apply Hbefore. lia.
    + intros [|j] Hj.
      * rewrite firstn_cons, Hshift, take_0. simpl. by rewrite Z.add_0_r.
      * rewrite firstn_cons, Hshift. apply IH. lia.
Qed.

Lemma weight_with_time h r d :
  h !! r = Some d -> weight (with_time h r).2 = candidate_weight d.
Proof.
  intros Hd. unfold with_time, candidate_weight. rewrite Hd. simpl.
  by destruct (avg_response_time d).
Qed.

(** C4, amended.  In the branch with more than 3 candidates the weight
    of a candidate is [1000 // avg_rt] when a positive average is
    recorded, 1000 when the recorded average is not positive, and 2
    ([1000 // 500]) when no average is recorded; when the weights sum to
    more than 0 the candidate returned is the first one at which the
    running sum of these weights reaches the number drawn, or the last
    candidate when it never does. *)
Theorem weighted_branch w c m draw :
  let l := filtered_proxies w c m in
  use_proxies w = true ->
  (3 < length l)%nat ->
  (forall r d, heap w !! r = Some d ->
     weight (with_time (heap w) r).2 = candidate_weight d
     /\ (avg_response_time d = None -> candidate_weight d = 2))
  /\ (0 < total_weight (with_time (heap w) <$> l) ->
      exists i r w',
        l !! i = Some r
        /\ get_proxy w c m draw = Ok (Some r, w')
        /\ (forall j, (j < i)%nat ->
              (inject_Z (running_weight (heap w) l (S j)) < uniform draw)%Q)
        /\ ((uniform draw <= inject_Z (running_weight (heap w) l (S i)))%Q
            \/ S i = length l)).
Proof.
  intros l Huse Hlen. split.
  { intros r d Hd. split; [by apply weight_with_time|].
    intros Ha. unfold candidate_weight. by rewrite Ha. }
  intros Hpos.
  assert (active_proxies w <> []) as Hact.
  { intros Hnil. destruct l as [|r0 l'] eqn:Hl; [simpl in Hlen; lia|].
    assert (r0 ∈ filtered_proxies w c m) as Hr0 by (fold l; rewrite Hl; left).
    apply elem_of_filtered_proxies in Hr0 as [Hr0 _].
    rewrite Hnil in Hr0. by apply elem_of_nil in Hr0. }
  unfold get_proxy. rewrite Huse. simpl.
  rewrite bool_decide_eq_false_2 by done. fold l.
  destruct l as [|r0 l'] eqn:Hl; [simpl in Hlen; lia|]. rewrite <- Hl in *.
  assert ((length l <=? 3)%nat = false) as -> by (apply Nat.leb_gt; lia).
  unfold weighted_choice.
  assert ((total_weight (with_time (heap w) <$> l) <=? 0) = false) as ->
    by (apply Z.leb_gt; lia).
  pose proof (weighted_walk_spec (with_time (heap w) <$> l) (uniform draw) 0)
    as Hwalk.
  unfold running_weight.
  destruct (weighted_walk _ _ _) as [p|].
  - destruct Hwalk as (i & rt & Hi & Hstop & Hbefore).
    exists i, p. eexists. split_and!.
    + rewrite list_lookup_fmap in Hi.
      destruct (l !! i) as [r|]; [|done]. simpl in Hi. by injection Hi as <- _.
    + simpl. reflexivity.
    + intros j Hj. rewrite fmap_take. apply (Hbefore j Hj).
    + left. rewrite fmap_take. exact Hstop.
  - rewrite fmap_last.
    destruct (last l) as [x|] eqn:Hlast.
    2:{ exfalso. assert (l <> []) as Hne by (rewrite Hl; done).
        apply last_is_Some in Hne. rewrite Hlast in Hne. by destruct Hne. }
    exists (length l - 1)%nat, x. eexists. split_and!.
    + rewrite last_lookup in Hlast. by rewrite <- Nat.sub_1_r in Hlast.
    + simpl. reflexivity.
    + intros j Hj. rewrite fmap_take. apply Hwalk.
      rewrite length_fmap. lia.
    + right. lia.
Qed.

Lemma weighted_branch_witness :
  exists w,
    run (initial true sample_clock) one_unmeasured = Ok w
    /\ (forall r d, heap w !! r = Some d ->
          weight (with_time (heap w) r).2 = candidate_weight d
          /\ (avg_response_time d = None -> candidate_weight d = 2))
    /\ (0 < total_weight (with_time (heap w) <$> filtered_proxies w None None) ->
        exists i r w',
          filtered_proxies w None None !! i = Some r
          /\ get_proxy w None None (mkDraw 0 (5 # 2)) = Ok (Some r, w')
          /\ (forall j, (j < i)%nat ->
                (inject_Z (running_weight (heap w)
                             (filtered_proxies w None None) (S j)) < 5 # 2)%Q)
          /\ ((5 # 2 <= inject_Z (running_weight (heap w)
                                    (filtered_proxies w None None) (S i)))%Q
              \/ S i = length (filtered_proxies w None None))).
Proof.
  eexists. split; [vm_compute; reflexivity|].
  apply (weighted_branch _ None None (mkDraw 0 (5 # 2))).
  - reflexivity.
  - vm_compute. lia.
Defined.

(** C4 as stated fails for a candidate without a recorded average: its
    weight is 2, not 1000.  With the unmeasured [proxy_a] first and a
    draw of 2.5 the walk passes [proxy_a] and returns [proxy_b]. *)
Lemma stated_weight_counterexample :
  exists w d w',
    run (initial true sample_clock) one_unmeasured = Ok w
    /\ (3 < length (filtered_proxies w None None))%nat
    /\ heap w !! 0%nat = Some d
    /\ avg_response_time d = None
    /\ stated_weight d = 1000
    /\ weight (with_time (heap w) 0%nat).2 = 2
    /\ weight (with_time (heap w) 0%nat).2 <> stated_weight d
    /\ get_proxy w None None (mkDraw 0 (5 # 2)) = Ok (Some 1%nat, w').
Proof.
  eexists _, _, _. split; [vm_compute; reflexivity|].
  split_and!.
  - vm_compute. lia.
  - reflexivity.
  - reflexivity.
  - reflexivity.
  - reflexivity.
  - vm_compute. lia.
  - vm_compute. reflexivity.
Qed.

(** ** C5: the snapshot *)

Lemma objects_seq h i n : objects h (seq i n) = take n (drop i h).
Proof.
  revert i. induction n as [|n IH]; intros i; [done|].
  cbn [seq]. unfold objects in *. cbn [omap list_omap].
  rewrite IH. destruct (h !! i) as [x|] eqn:Hx.
  - by rewrite (drop_S h x i Hx).
  - apply lookup_ge_None in Hx. rewrite !drop_ge by lia. by destruct n.
Qed.

Lemma objects_app_l a b : objects (a ++ b) (seq 0 (length a)) = a.
Proof. by rewrite objects_seq, drop_0, take_app_length. Qed.

Lemma objects_app_r a b : objects (a ++ b) (seq (length a) (length b)) = b.
Proof. by rewrite objects_seq, drop_app_length, firstn_all. Qed.

(** What a restart finds after a save: the descriptors and the
    performance records as they were, and the instant of the save in
    place of the instant of the last refresh. *)
Lemma restart_after_save w :
  let w' := restart (_save_proxies w) in
  objects (heap w') (proxies w') = objects (heap w) (proxies w)
  /\ proxy_performance w' = proxy_performance w
  /\ objects (heap w') (blacklisted_proxies w')
     = objects (heap w) (blacklisted_proxies w)
  /\ last_refresh w' = Some (clock w (ticks w)).
Proof.
  cbv zeta. unfold restart, __init__, _load_saved_proxies. st_simpl.
  split_and!; [apply objects_app_l|done|apply objects_app_r|done].
Qed.

(** C5, evaluated where the code departs from it.  A report saved before
    any refresh leaves [last_refresh] unset in memory, and the restart
    reads the instant of the save; a refresh sets [last_refresh] from one
    reading of the clock and saves the next reading, which is what the
    restart reads.  The descriptors, the performance records and the
    blacklist are read back as they were. *)
Theorem snapshot_last_refresh_not_restored :
  (exists w,
     run (initial true sample_clock) saved_report = Ok w
     /\ last_refresh w = None
     /\ last_refresh (restart w) = Some 1001
     /\ objects (heap (restart w)) (proxies (restart w))
        = objects (heap w) (proxies w)
     /\ proxy_performance (restart w) = proxy_performance w
     /\ objects (heap (restart w)) (blacklisted_proxies (restart w))
        = objects (heap w) (blacklisted_proxies w))
  /\ (let w := refresh_proxies (initial true sample_clock)
                 (Fetched [proxy_a; proxy_b]) in
      last_refresh w = Some 1002
      /\ last_refresh (restart w) = Some 1003
      /\ objects (heap (restart w)) (proxies (restart w))
         = objects (heap w) (proxies w)
      /\ proxy_performance (restart w) = proxy_performance w
      /\ objects (heap (restart w)) (blacklisted_proxies (restart w))
         = objects (heap w) (blacklisted_proxies w)).
Proof.
  split.
  - eexists. split; [vm_compute; reflexivity|].
    split_and!; vm_compute; reflexivity.
  - cbv zeta. split_and!; vm_compute; reflexivity.
Qed.

(** ** C6: uniqueness of endpoints *)

(** C6, amended.  In every state reached from the empty pool by
    refreshes, reports, health checks and selections, no two entries of
    the pool have the same [(host, port)], every entry of the blacklist
    is a descriptor of the pool, and so two descriptors taken from the
    two lists together that have the same [(host, port)] are one and the
    same descriptor. *)
Theorem endpoint_unique use clk evs w :
  run (initial use clk) evs = Ok w -> endpoints_unique w.
Proof.
  intros Hrun.
  destruct (reachable_pool_ok _ _ _ _ Hrun) as ((Hps & Hbl) & Hk & _).
  assert (NoDup (endpoint_of <$> heap w)) as Hnd.
  { unfold keys_ok in Hk.
    apply (NoDup_fmap_1 (fun e : string * Z => e.1 +:+ ":" +:+ pretty e.2)).
    rewrite <- list_fmap_compose.
    erewrite list_fmap_ext; [exact Hk|]. by intros i d _. }
  unfold endpoints_unique. rewrite Hps at 1. rewrite objects_all.
  split_and!; [done|done|].
  intros r1 r2 d1 d2 _ _ H1 H2 He.
  assert (r1 = r2) as <-.
  { apply (NoDup_lookup _ r1 r2 (endpoint_of d1) Hnd).
    - by rewrite list_lookup_fmap, H1.
    - by rewrite list_lookup_fmap, H2, He. }
  split; [done|congruence].
Qed.

Lemma endpoint_unique_witness :
  exists w,
    run (initial true sample_clock) busy_history = Ok w
    /\ endpoints_unique w.
Proof.
  eexists. split; [vm_compute; reflexivity|].
  apply (endpoint_unique true sample_clock busy_history).
  vm_compute. reflexivity.
Defined.

(** C6 as stated fails: a blacklisted descriptor is not taken out of the
    pool, so after three failures reported on the first of three proxies
    its [(host, port)] appears in the pool and in the blacklist, twice
    across the two lists. *)
Lemma endpoints_unique_counterexample :
  exists w,
    run (initial true sample_clock) (fresh_pool ++ three_failures proxy_a)
    = Ok w
    /\ proxies w = [0%nat; 1%nat; 2%nat]
    /\ blacklisted_proxies w = [0%nat]
    /\ endpoint_of <$> objects (heap w) (proxies w ++ blacklisted_proxies w)
       = [endpoint_of proxy_a; endpoint_of proxy_b; endpoint_of proxy_c;
          endpoint_of proxy_a]
    /\ ~ endpoints_unique_as_stated w.
Proof.
  eexists. split; [vm_compute; reflexivity|].
  split_and!; [reflexivity|reflexivity|vm_compute; reflexivity|].
  unfold endpoints_unique_as_stated. intros Hnd.
  vm_compute in Hnd. apply NoDup_cons in Hnd as [Hin _].
  apply Hin. do 2 right. left.
Qed.

(** The blacklist itself may name one descriptor several times: every
    failure reported after the third appends it again. *)
Lemma blacklist_may_repeat :
  exists w,
    run (initial true sample_clock) busy_history = Ok w
    /\ blacklisted_proxies w = [0%nat; 0%nat].
Proof. eexists. split; vm_compute; reflexivity. Qed.

(** ** C7: performance records *)

(** C7, amended.  After any history from the empty pool every
    performance record has
    [0 <= successful_requests <= total_requests], and
    [avg_response_time = 0] when [successful_requests = 0]; if every
    report of success in the history came with a response time other
    than 0, every record also has
    [avg_response_time = total_response_time // successful_requests]
    when [successful_requests > 0]. *)
Theorem performance_records use clk evs w :
  run (initial use clk) evs = Ok w ->
  perf_ok counts_ok w
  /\ (Forall timed_success evs -> perf_ok average_ok w).
Proof.
  intros Hrun. split; [by apply (reachable_counts_ok use clk evs)|].
  intros Hev.
  assert (perf_ok timed_ok w) as H.
  { revert Hrun. apply (run_invariant (perf_ok timed_ok) timed_success);
      [|apply perf_ok_initial|done].
    intros w0 ev w1 H ?. apply perf_ok_step; [by right|done]. }
  intros k p Hp. by destruct (H k p Hp).
Qed.

Lemma performance_records_witness :
  exists w,
    run (initial true sample_clock) timed_history = Ok w
    /\ perf_ok counts_ok w
    /\ perf_ok average_ok w.
Proof.
  eexists. split; [vm_compute; reflexivity|].
  destruct (performance_records true sample_clock timed_history _
              ltac:(vm_compute; reflexivity)) as [Hcounts Haverage].
  split; [exact Hcounts|].
  apply Haverage. repeat constructor.
Defined.

(** C7 as stated fails: a success reported with 100 ms and then a
    success reported without a response time leave
    [successful_requests = 2], [total_response_time = 100] and
    [avg_response_time = 100], while [100 // 2 = 50]. *)
Lemma records_as_stated_counterexample :
  exists w p,
    run (initial true sample_clock) untimed_success = Ok w
    /\ proxy_performance w !! proxy_id proxy_a = Some p
    /\ Perf.successful_requests p = 2
    /\ Perf.total_response_time p = 100
    /\ Perf.avg_response_time p = 100
    /\ ~ records_as_stated w.
Proof.
  eexists _, _. split; [vm_compute; reflexivity|].
  split_and!; [vm_compute; reflexivity|done|done|done|].
  intros H.
  destruct (H (proxy_id proxy_a) (Perf.mk 2 2 100 100 (Some 1001))) as [_ Ha].
  - vm_compute. reflexivity.
  - vm_compute in Ha. discriminate.
Qed.

(** ** C8: disabled or empty *)

Lemma get_proxy_idle w c m draw :
  use_proxies w = false \/ active_proxies w = [] ->
  get_proxy w c m draw = Ok (None, w).
Proof.
  intros [Huse|Hact]; unfold get_proxy.
  - by rewrite Huse.
  - rewrite Hact. by destruct (use_proxies w).
Qed.

Lemma quiet_when_idle_all w : quiet_when_idle w.
Proof. split; [apply get_proxy_idle|done]. Qed.

(** C8.  In every state whatever, [get_proxy] returns [None] (and
    changes nothing) when proxies are disabled or no proxy is active,
    [report_proxy_result] on a descriptor that is [None] or empty changes
    nothing, and [get_proxy] does not raise, whatever its arguments.
    Every history from the empty pool runs to its end without an
    exception, and in the state it reaches neither operation raises,
    whatever its arguments. *)
Theorem disabled_or_empty (w0 : State) use clk evs :
  quiet_when_idle w0
  /\ (forall c m draw, exists res, get_proxy w0 c m draw = Ok res)
  /\ exists w, run (initial use clk) evs = Ok w /\ never_raises w.
Proof.
  split; [apply quiet_when_idle_all|].
  split; [intros c m draw; apply get_proxy_total|].
  destruct (run_total use clk evs) as [w Hrun]. exists w.
  split; [done|]. split.
  - intros c m draw. apply get_proxy_total.
  - intros proxy success rt save. apply report_total.
    by apply (reachable_counts_ok use clk evs).
Qed.

Lemma disabled_or_empty_witness :
  get_proxy (initial false sample_clock) (Some "us") (Some 300) (mkDraw 0 0)
  = Ok (None, initial false sample_clock)
  /\ get_proxy (initial true sample_clock) None None (mkDraw 0 0)
     = Ok (None, initial true sample_clock)
  /\ exists w, run (initial true sample_clock) busy_history = Ok w
               /\ never_raises w.
Proof.
  destruct (disabled_or_empty (initial false sample_clock)
              true sample_clock busy_history) as ([Hq1 _] & _ & Hrun).
  destruct (disabled_or_empty (initial true sample_clock)
              true sample_clock busy_history) as ([Hq2 _] & _ & _).
  split_and!.
  - apply Hq1. left. reflexivity.
  - apply Hq2. right. reflexivity.
  - exact Hrun.
Defined.

(** ** C9: a descriptor without ['is_active'] *)

Lemma treated_as_active_iff d : get_is_active d = true <-> treated_as_active d.
Proof.
  unfold get_is_active, treated_as_active.
  destruct (is_active d) as [[|]|]; simpl; split; try tauto; try done.
  - intros [H|H]; done.
Qed.

(** C9.  In the state after start-up, with whatever cache file, and
    after every history from there, the active view holds exactly the
    descriptors of the pool whose ['is_active'] is absent or true: a
    descriptor without the key is in the view and among the candidates
    of a selection without filters.  In particular an entry of the
    loaded snapshot without the key is in the view right after the
    load. *)
Theorem absent_flag_is_active use clk tk file evs w :
  run (__init__ use clk tk file) evs = Ok w ->
  active_proxies w = active_view (heap w) (proxies w)
  /\ active_view_exact w
  /\ (forall r d, r ∈ proxies w -> heap w !! r = Some d ->
        is_active d = None ->
        r ∈ active_proxies w /\ r ∈ filtered_proxies w None None)
  /\ (forall snap i d,
        file = Some snap -> snap_proxies snap !! i = Some d ->
        is_active d = None ->
        heap (__init__ use clk tk file) !! i = Some d
        /\ i ∈ active_proxies (__init__ use clk tk file)).
Proof.
  intros Hrun. pose proof (reachable_view_ok _ _ _ _ _ _ Hrun) as Hview.
  assert (active_view_exact w) as Hexact.
  { intros r. rewrite Hview, elem_of_active_view.
    by setoid_rewrite treated_as_active_iff. }
  split_and!; [done|done| |].
  - intros r d Hr Hd Hnone.
    assert (r ∈ active_proxies w) as Hact.
    { apply Hexact. split; [done|]. exists d. split; [done|by left]. }
    by split.
  - intros snap i d -> Hi Hnone.
    unfold __init__, _load_saved_proxies. st_simpl.
    assert ((snap_proxies snap ++ snap_blacklisted snap) !! i = Some d) as Hd.
    { by apply lookup_app_l_Some. }
    split; [done|].
    apply elem_of_active_view. split.
    + apply elem_of_seq. apply lookup_lt_Some in Hi. lia.
    + exists d. split; [done|]. unfold get_is_active. by rewrite Hnone.
Qed.

Lemma absent_flag_is_active_witness :
  exists w,
    run (__init__ true sample_clock 0 (Some legacy_snapshot))
      [EvSelect None None (mkDraw 0 0)] = Ok w
    /\ active_proxies w = [0%nat]
    /\ heap (__init__ true sample_clock 0 (Some legacy_snapshot)) !! 0%nat
       = Some legacy_entry
    /\ 0%nat ∈ active_proxies (__init__ true sample_clock 0 (Some legacy_snapshot)).
Proof.
  eexists. split; [vm_compute; reflexivity|].
  destruct (absent_flag_is_active true sample_clock 0%nat (Some legacy_snapshot)
              [EvSelect None None (mkDraw 0 0)] _
              ltac:(vm_compute; reflexivity)) as (Hview & _ & _ & Hload).
  split; [rewrite Hview; vm_compute; reflexivity|].
  apply (Hload legacy_snapshot 0%nat legacy_entry); reflexivity.
Defined.

(** ** C10: reports on an unknown endpoint *)

Lemma unknown_endpoint_find w proxy :
  unknown_endpoint w proxy ->
  find_endpoint (heap w) (proxies w) proxy = None.
Proof.
  intros Hu. apply find_endpoint_None. intros r p Hr Hp.
  specialize (Hu r p Hr Hp). unfold same_endpoint, endpoint_of in *.
  apply andb_false_iff.
  destruct (decide (host p = host proxy)) as [Hh|Hh];
    [|left; by apply bool_decide_eq_false_2].
  right. apply bool_decide_eq_false_2. intros Hport. apply Hu. congruence.
Qed.

Lemma report_unknown_endpoint_step w proxy success rt save w' :
  unknown_endpoint w proxy ->
  report_proxy_result w (Some proxy) success rt save = Ok w' ->
  pool_untouched w w' proxy /\ is_Some (proxy_performance w' !! proxy_id proxy).
Proof.
  intros Hu Hrep.
  destruct (report_perf _ _ _ _ _ _ Hrep) as (perf' & Hperf & _).
  apply report_shape in Hrep as (perf0 & tk & ->). cbv zeta in *.
  set (w0 := set_proxy_performance _ _) in *.
  assert (find_endpoint (heap w0) (proxies w0) proxy = None) as Hfind
    by (by apply (unknown_endpoint_find w)).
  assert ((if success then report_success w0 proxy else report_failure w0 proxy)
          = w0) as Hbranch.
  { unfold report_success, report_failure. rewrite Hfind. by destruct success. }
  rewrite Hbranch in *.
  split.
  - unfold pool_untouched. rewrite Hperf.
    split_and!; try (by destruct save).
    intros k Hk. by rewrite lookup_insert_ne.
  - rewrite Hperf, lookup_insert_eq. by eexists.
Qed.

(** C10.  Reports on a descriptor whose [(host, port)] is not in the
    pool, however many and whatever their outcome, leave the store of
    descriptors, the pool, the active view and the blacklist as they
    were, and change no performance record other than the one under the
    id of that descriptor, which exists after the first report. *)
Theorem report_unknown_endpoint w proxy evs w' :
  unknown_endpoint w proxy ->
  Forall (report_on proxy) evs ->
  run w evs = Ok w' ->
  pool_untouched w w' proxy
  /\ (evs <> [] -> is_Some (proxy_performance w' !! proxy_id proxy)).
Proof.
  intros Hu Hev. revert w Hu.
  induction Hev as [|ev evs (s & rt & save & ->) Hevs IH]; intros w Hu Hrun.
  { simpl in Hrun. injection Hrun as <-. by split. }
  cbn [run step] in Hrun.
  destruct (report_proxy_result w (Some proxy) s rt save) as [w1|] eqn:Hs;
    [|done].
  cbn [bind] in Hrun.
  destruct (report_unknown_endpoint_step _ _ _ _ _ _ Hu Hs)
    as [(Hh & Hp & Ha & Hb & Hk) Hsome].
  assert (unknown_endpoint w1 proxy) as Hu1.
  { unfold unknown_endpoint. by rewrite Hh, Hp. }
  destruct (IH w1 Hu1 Hrun) as [(Hh' & Hp' & Ha' & Hb' & Hk') Hsome'].
  split.
  - unfold pool_untouched. rewrite Hh', Hp', Ha', Hb'.
    split_and!; try done. intros k Hne. by rewrite Hk', Hk.
  - intros _. destruct evs as [|ev evs'].
    + simpl in Hrun. by injection Hrun as <-.
    + by apply Hsome'.
Qed.

Lemma report_unknown_endpoint_witness :
  exists w w',
    run (initial true sample_clock) [EvRefresh (Fetched [proxy_a; proxy_b])]
    = Ok w
    /\ run w stranger_fails = Ok w'
    /\ pool_untouched w w' proxy_c
    /\ is_Some (proxy_performance w' !! proxy_id proxy_c).
Proof.
  eexists _, _. split; [vm_compute; reflexivity|].
  split; [vm_compute; reflexivity|].
  match goal with
  | |- pool_untouched ?w ?w' _ /\ _ =>
      destruct (report_unknown_endpoint w proxy_c stranger_fails w')
        as [H1 H2]
  end.
  - intros r p Hr Hp. cbn in Hr.
    apply elem_of_cons in Hr as [->|Hr];
      [|apply elem_of_cons in Hr as [->|Hr]; [|by apply elem_of_nil in Hr]];
      cbn in Hp; injection Hp as <-; discriminate.
  - unfold stranger_fails, fail. repeat constructor; by eexists _, _, _.
  - vm_compute. reflexivity.
  - split; [exact H1|]. by apply H2.
Defined.

(** * Further properties of the manager *)

(** ** How the pool evolves *)




















(** ** How the counters evolve *)










(** ** What the counters count *)





(** ** Time *)



















(** ** What a report does to the descriptor it names *)














(** ** Selection *)







(** ** Weighted selection *)














(** ** Refresh *)










(** ** Health checks *)

































